(** * kiwi_airports: airports of a country, printed as CSV

    A shallow embedding of [kiwi_airports.py].  Python values that travel
    through the script (the parsed JSON document, the rows handed to
    [csv.DictWriter]) are a small inductive type; the functions of the script
    are Rocq functions with the same names; code that can raise returns a
    [result]; code that writes to standard output threads the text written
    so far.

    The two library calls that reach outside the process, [requests.get] and
    [json.loads], are variables of the section [Script]. *)

From Stdlib Require Import String Ascii List ZArith Bool Lia DecimalString.
Import ListNotations.
Open Scope list_scope.
Open Scope string_scope.

Set Warnings "-register-all".

(** ** Python values *)

(** What [json.loads] can build.  A [str] is a Rocq string, one [ascii] per
    code point (so code points below 256); a [float] is carried by its
    [repr], the only thing the script ever asks of it (at write time). *)
Inductive value : Type :=
| VNone
| VBool (b : bool)
| VInt (z : Z)
| VFloat (repr : string)
| VStr (s : string)
| VList (l : list value)
| VDict (d : list (string * value)).

(** A dict is an association list in insertion order, each key once (as
    [json.loads] and a dict display build it); a key is looked up from the
    front. *)
Fixpoint dict_lookup {A : Type} (d : list (string * A)) (key : string) : option A :=
  match d with
  | [] => None
  | (k, v) :: d' => if String.eqb k key then Some v else dict_lookup d' key
  end.

(** [d.get(key, default)] *)
Definition dict_get {A : Type} (d : list (string * A)) (key : string) (default : A) : A :=
  match dict_lookup d key with
  | Some v => v
  | None => default
  end.

Definition keys {A : Type} (d : list (string * A)) : list string := map fst d.
Definition values {A : Type} (d : list (string * A)) : list A := map snd d.

(** ** Exceptions *)

(** The exception classes that can reach the top level of the script.  All
    but [KeyboardInterrupt] derive from [Exception]. *)
Inductive exception : Type :=
| Exception (msg : string)
| KeyError (key : string)
| TypeError (msg : string)
| ValueError (msg : string)
| JSONDecodeError (msg : string)
| RequestException (msg : string)
| KeyboardInterrupt.

(** [isinstance(e, Exception)] *)
Definition is_Exception (e : exception) : bool :=
  match e with
  | KeyboardInterrupt => false
  | _ => true
  end.

Inductive result (A : Type) : Type :=
| Ok (a : A)
| Raise (e : exception).
Arguments Ok {A} a.
Arguments Raise {A} e.

Definition rbind {A B : Type} (r : result A) (k : A -> result B) : result B :=
  match r with
  | Ok a => k a
  | Raise e => Raise e
  end.

Notation "x <- r ;; k" := (rbind r (fun x => k))
  (at level 61, r at next level, right associativity).

(** ** [repr] and [str] *)

Definition squote : ascii := "039"%char.
Definition dquote : ascii := "034"%char.
Definition backslash : ascii := "092"%char.
Definition TAB : ascii := "009"%char.
Definition LF : ascii := "010"%char.
Definition CR : ascii := "013"%char.

Definition str1 (c : ascii) : string := String c EmptyString.

Fixpoint contains (c : ascii) (s : string) : bool :=
  match s with
  | EmptyString => false
  | String c' s' => Ascii.eqb c' c || contains c s'
  end.

Definition hexdigit (n : nat) : ascii :=
  if Nat.ltb n 10 then ascii_of_nat (48 + n) else ascii_of_nat (87 + n).

(** [\xNN], two lower-case hexadecimal digits *)
Definition hex_escape (c : ascii) : string :=
  let n := nat_of_ascii c in
  String backslash (String "x" (String (hexdigit (n / 16)) (str1 (hexdigit (n mod 16))))).

(** [str.isprintable] on one code point below 256: the controls (C0, DEL,
    C1), the no-break space and the soft hyphen are not printable. *)
Definition isprintable (c : ascii) : bool :=
  let n := nat_of_ascii c in
  Nat.leb 32 n && negb (Nat.leb 127 n && Nat.leb n 160) && negb (Nat.eqb n 173).

Definition repr_char (quote c : ascii) : string :=
  if Ascii.eqb c quote || Ascii.eqb c backslash then String backslash (str1 c)
  else if Ascii.eqb c TAB then String backslash "t"
  else if Ascii.eqb c LF then String backslash "n"
  else if Ascii.eqb c CR then String backslash "r"
  else if isprintable c then str1 c
  else hex_escape c.

Fixpoint repr_chars (quote : ascii) (s : string) : string :=
  match s with
  | EmptyString => EmptyString
  | String c s' => repr_char quote c ++ repr_chars quote s'
  end.

(** [repr] of a [str]: single quotes, unless the text has a single quote and
    no double quote. *)
Definition repr_str (s : string) : string :=
  let quote := if contains squote s && negb (contains dquote s) then dquote else squote in
  String quote (repr_chars quote s ++ str1 quote).

Definition str_int (z : Z) : string := NilZero.string_of_int (Z.to_int z).

Fixpoint repr_value (v : value) : string :=
  match v with
  | VNone => "None"
  | VBool true => "True"
  | VBool false => "False"
  | VInt z => str_int z
  | VFloat r => r
  | VStr s => repr_str s
  | VList l => "[" ++ String.concat ", " (map repr_value l) ++ "]"
  | VDict d =>
      "{" ++ String.concat ", "
               (map (fun kv => match kv with
                               | (k, x) => repr_str k ++ ": " ++ repr_value x
                               end) d) ++ "}"
  end.

(** [str(v)] *)
Definition str_value (v : value) : string :=
  match v with
  | VStr s => s
  | _ => repr_value v
  end.

(** [str(e)].  A [KeyError] shows the [repr] of its key. *)
Definition str_exception (e : exception) : string :=
  match e with
  | Exception msg => msg
  | KeyError key => repr_str key
  | TypeError msg => msg
  | ValueError msg => msg
  | JSONDecodeError msg => msg
  | RequestException msg => msg
  | KeyboardInterrupt => ""
  end.

(** ** Subscription and iteration *)

Definition type_name (v : value) : string :=
  match v with
  | VNone => "NoneType"
  | VBool _ => "bool"
  | VInt _ => "int"
  | VFloat _ => "float"
  | VStr _ => "str"
  | VList _ => "list"
  | VDict _ => "dict"
  end.

(** [v[key]] for a string [key] (messages of CPython 3.11) *)
Definition getitem (v : value) (key : string) : result value :=
  match v with
  | VDict d =>
      match dict_lookup d key with
      | Some x => Ok x
      | None => Raise (KeyError key)
      end
  | VList _ => Raise (TypeError "list indices must be integers or slices, not str")
  | VStr _ => Raise (TypeError "string indices must be integers, not 'str'")
  | _ => Raise (TypeError ("'" ++ type_name v ++ "' object is not subscriptable"))
  end.

Fixpoint chars (s : string) : list value :=
  match s with
  | EmptyString => []
  | String c s' => VStr (str1 c) :: chars s'
  end.

(** The items [enumerate(v)] goes through: the elements of a list, the keys
    of a dict, the characters of a str. *)
Definition iter (v : value) : result (list value) :=
  match v with
  | VList l => Ok l
  | VDict d => Ok (map VStr (keys d))
  | VStr s => Ok (chars s)
  | _ => Raise (TypeError ("'" ++ type_name v ++ "' object is not iterable"))
  end.

(** ** Standard output *)

(** Code that prints: the text written to [sys.stdout] so far goes in, the
    text written so far comes out, with the value or the exception.  What
    was written before an exception stays written. *)
Definition stdout : Type := string.
Definition io (A : Type) : Type := stdout -> stdout * result A.

Definition io_ret {A : Type} (a : A) : io A := fun out => (out, Ok a).

Definition io_bind {A B : Type} (m : io A) (k : A -> io B) : io B :=
  fun out =>
    match m out with
    | (out', Ok a) => k a out'
    | (out', Raise e) => (out', Raise e)
    end.

Definition lift {A : Type} (r : result A) : io A := fun out => (out, r).

Definition write (s : string) : io unit := fun out => (out ++ s, Ok tt).

Notation "x <~ m ;; k" := (io_bind m (fun x => k))
  (at level 61, m at next level, right associativity).
Notation "m ;;; k" := (io_bind m (fun _ => k))
  (at level 61, right associativity).

(** [for x in items: body(x)] *)
Fixpoint for_each {A : Type} (items : list A) (body : A -> io unit) : io unit :=
  match items with
  | [] => io_ret tt
  | x :: items' => body x ;;; for_each items' body
  end.

(** [print(s)] *)
Definition print (s : string) : io unit := write (s ++ str1 LF).

(** ** The [csv] module, dialect [excel] *)

Definition delimiter : ascii := ","%char.
Definition quotechar : ascii := dquote.
Definition lineterminator : string := String CR (str1 LF).

(** One field under [QUOTE_MINIMAL] with [doublequote]: the characters of the
    field, a quote character doubled, and whether the field has to be
    quoted (it holds the delimiter, the quote character or a character of
    the line terminator). *)
Fixpoint join_append_data (field : string) : bool * string :=
  match field with
  | EmptyString => (false, EmptyString)
  | String c field' =>
      let (quoted, data) := join_append_data field' in
      if Ascii.eqb c quotechar then (true, String quotechar (String c data))
      else if Ascii.eqb c delimiter || contains c lineterminator then (true, String c data)
      else (quoted, String c data)
  end.

Definition join_append (field : string) : string :=
  let (quoted, data) := join_append_data field in
  if quoted then String quotechar (data ++ str1 quotechar) else data.

(** What the writer makes of one cell: [None] is the empty field, a [str] is
    taken as it is, anything else goes through [str]. *)
Definition field_text (v : value) : string :=
  match v with
  | VNone => EmptyString
  | VStr s => s
  | _ => str_value v
  end.

(** The record for a list of cells, without its line terminator.  A record
    that would be empty although it has a field (one empty field) is written
    as a pair of quotes. *)
Definition join_fields (fields : list value) : string :=
  let rec := String.concat (str1 delimiter) (map (fun v => join_append (field_text v)) fields) in
  if Nat.ltb 0 (length fields) && String.eqb rec EmptyString
  then String quotechar (str1 quotechar)
  else rec.

(** [csv.writer(sys.stdout).writerow(fields)] *)
Definition writer_writerow (fields : list value) : io unit :=
  write (join_fields fields ++ lineterminator).

Inductive extras : Type := extras_raise | extras_ignore.

(** [csv.DictWriter(sys.stdout, fieldnames=..., restval='', extrasaction=...)] *)
Record DictWriter : Type := {
  fieldnames : list string;
  restval : value;
  extrasaction : extras
}.

Definition mem (x : string) (l : list string) : bool := existsb (String.eqb x) l.

(** [DictWriter._dict_to_list]: with [extrasaction='raise'] a key outside
    [fieldnames] is a [ValueError] (CPython lists the keys in set order, here
    in row order); then one cell per field name, [restval] for a field the
    row lacks. *)
Definition _dict_to_list (w : DictWriter) (rowdict : list (string * value)) : result (list value) :=
  let wrong_fields := filter (fun k => negb (mem k (fieldnames w))) (keys rowdict) in
  match extrasaction w, wrong_fields with
  | extras_raise, _ :: _ =>
      Raise (ValueError ("dict contains fields not in fieldnames: "
                           ++ String.concat ", " (map repr_str wrong_fields)))
  | _, _ => Ok (map (fun key => dict_get rowdict key (restval w)) (fieldnames w))
  end.

Definition DictWriter_writerow (w : DictWriter) (rowdict : list (string * value)) : io unit :=
  fields <~ lift (_dict_to_list w rowdict) ;;
  writer_writerow fields.

(** [header = dict(zip(self.fieldnames, self.fieldnames))] *)
Definition DictWriter_writeheader (w : DictWriter) : io unit :=
  let header := map (fun f => (f, VStr f)) (fieldnames w) in
  DictWriter_writerow w header.

(** ** The script *)

(** The [argparse.Namespace] of [parse_options]: one boolean per switch, in
    the order the switches are declared. *)
Record Namespace : Type := {
  cities : bool;
  coords : bool;
  iata : bool;
  names : bool;
  full : bool
}.

(** [vars(parsed_options)] *)
Definition vars (o : Namespace) : list (string * bool) :=
  [("cities", cities o); ("coords", coords o); ("iata", iata o);
   ("names", names o); ("full", full o)].

(** [x in l] on booleans *)
Definition bool_in (x : bool) (l : list bool) : bool := existsb (Bool.eqb x) l.

Definition append {A : Type} (l : list A) (x : A) : list A := (l ++ [x])%list.
Definition extend {A : Type} (l xs : list A) : list A := (l ++ xs)%list.

Definition get_fieldnames (parsed_options : Namespace) : list string :=
  let fieldnames := [] in
  if negb (bool_in true (values (vars parsed_options))) then ["name"]
  else if full parsed_options then ["name"; "city"; "lon"; "lat"; "iata"]
  else
    let fieldnames := if names parsed_options then append fieldnames "name" else fieldnames in
    let fieldnames := if cities parsed_options then append fieldnames "city" else fieldnames in
    let fieldnames := if coords parsed_options then extend fieldnames ["lon"; "lat"] else fieldnames in
    let fieldnames := if iata parsed_options then append fieldnames "iata" else fieldnames in
    fieldnames.

(** The dict display is evaluated entry by entry, left to right. *)
Definition create_airport_row (airport : value) : result (list (string * value)) :=
  name <- getitem airport "name" ;;
  city <- getitem airport "city" ;;
  city_name <- getitem city "name" ;;
  location <- getitem airport "location" ;;
  lon <- getitem location "lon" ;;
  location' <- getitem airport "location" ;;
  lat <- getitem location' "lat" ;;
  code <- getitem airport "code" ;;
  Ok [("name", name); ("city", city_name); ("lon", lon); ("lat", lat); ("iata", code)].

(** The header goes out first; only then is [json_response['locations']]
    read and gone through, one row written per airport. *)
Definition output_airports (json_response : value) (parsed_options : Namespace) : io unit :=
  let fieldnames := get_fieldnames parsed_options in
  let writer := {| fieldnames := fieldnames; restval := VStr EmptyString;
                   extrasaction := extras_ignore |} in
  DictWriter_writeheader writer ;;;
  locations <~ lift (getitem json_response "locations") ;;
  airports <~ lift (iter locations) ;;
  for_each airports (fun airport =>
    row <~ lift (create_airport_row airport) ;;
    DictWriter_writerow writer row).

(** A [requests.Response]: its status code and its body. *)
Record Response : Type := {
  status_code : Z;
  text : string
}.

(** [Response.ok]: [raise_for_status] raises for [400 <= status_code < 600]
    and for nothing else. *)
Definition ok (r : Response) : bool :=
  negb ((400 <=? status_code r)%Z && (status_code r <? 600)%Z).

(** How the process ends: normally, or on an exception nothing caught, with
    its traceback (on standard error, which is not modelled). *)
Inductive termination : Type :=
| ExitNormally
| Uncaught (e : exception).

(** The endpoint and the query of the one request. *)
Definition locations_url : string := "https://api.skypicker.com/locations".

Definition locations_params (iso_country_code : string) (limit : Z) : list (string * value) :=
  [("type", VStr "subentity");
   ("term", VStr iso_country_code);
   ("location_types", VStr "airport");
   ("limit", VInt limit)].

Section Script.

(** [requests.get(url, params=...)]: a response, or a network-level
    exception. *)
Variable requests_get : string -> list (string * value) -> result Response.

(** [json.loads] *)
Variable json_loads : string -> result value.

Definition get_airports (iso_country_code : string) (limit : Z) : result value :=
  response <- requests_get locations_url (locations_params iso_country_code limit) ;;
  if negb (ok response)
  then Raise (Exception "Could not fetch data from kiwi locations API.")
  else json_loads (text response).

(** The body of the [try] statement. *)
Definition try_body (parsed_options : Namespace) : io unit :=
  json_response <~ lift (get_airports "GB" 100) ;;
  output_airports json_response parsed_options.

(** [try: ... except Exception as e: print(str(e))], with the options
    already parsed. *)
Definition main (parsed_options : Namespace) (out : stdout) : stdout * termination :=
  match try_body parsed_options out with
  | (out', Ok _) => (out', ExitNormally)
  | (out', Raise e) =>
      if is_Exception e
      then (fst (print (str_exception e) out'), ExitNormally)
      else (out', Uncaught e)
  end.

End Script.

(** ** [argparse], for the parser of [parse_options] *)

(** [ArgumentParser.parse_args] as CPython 3.11 has it, for a parser with the
    help option and five [store_true] switches, and no positional.  What
    [parser.error] writes goes to standard error, which is not modelled. *)

(** The attributes of the namespace the five switches write to. *)
Inductive dest : Type := dest_cities | dest_coords | dest_iata | dest_names | dest_full.

(** [setattr(namespace, dest, True)] *)
Definition set_true (d : dest) (ns : Namespace) : Namespace :=
  match d with
  | dest_cities =>
      {| cities := true; coords := coords ns; iata := iata ns; names := names ns; full := full ns |}
  | dest_coords =>
      {| cities := cities ns; coords := true; iata := iata ns; names := names ns; full := full ns |}
  | dest_iata =>
      {| cities := cities ns; coords := coords ns; iata := true; names := names ns; full := full ns |}
  | dest_names =>
      {| cities := cities ns; coords := coords ns; iata := iata ns; names := true; full := full ns |}
  | dest_full =>
      {| cities := cities ns; coords := coords ns; iata := iata ns; names := names ns; full := true |}
  end.

(** The two kinds of action of the parser: the help action every parser gets,
    and [store_true].  Both take no argument ([nargs=0]). *)
Inductive action : Type :=
| help_action
| store_true (d : dest).

(** [parser._option_string_actions], in the order the options are added:
    [-h] and [--help] when the parser is made, then the five switches. *)
Definition option_string_actions : list (string * action) :=
  [("-h", help_action); ("--help", help_action);
   ("--cities", store_true dest_cities);
   ("--coords", store_true dest_coords);
   ("--iata", store_true dest_iata);
   ("--names", store_true dest_names);
   ("--full", store_true dest_full)].

(** The defaults [parse_known_args] puts in the namespace. *)
Definition default_namespace : Namespace :=
  {| cities := false; coords := false; iata := false; names := false; full := false |}.

(** Why [parser.error] is called; it exits with status 2. *)
Inductive usage_error : Type :=
| ambiguous_option (arg : string) (matches : list string)
| unexpected_option_string (arg : string)
| ignored_explicit_argument (a : action) (explicit_arg : string)
| unrecognized_arguments (extras : list string).

Inductive parsing (A : Type) : Type :=
| Fine (a : A)
| UsageError (e : usage_error).
Arguments Fine {A} a.
Arguments UsageError {A} e.

Definition dash : ascii := "-"%char.

(** [s.split('=', 1)], when there is an ['='] in [s]. *)
Fixpoint split_equals (s : string) : option (string * string) :=
  match s with
  | EmptyString => None
  | String c s' =>
      if Ascii.eqb c "="%char then Some (EmptyString, s')
      else match split_equals s' with
           | Some (before, after) => Some (String c before, after)
           | None => None
           end
  end.

(** An option found for an argument: the action, the option string it stands
    for, the explicit argument glued to it. *)
Definition option_tuple : Type := action * string * option string.

(** [_get_option_tuples]: the options an argument can abbreviate. *)
Definition _get_option_tuples (option_string : string) : parsing (list option_tuple) :=
  match option_string with
  | String c0 (String c1 tail) =>
      if Ascii.eqb c0 dash && Ascii.eqb c1 dash then
        let (option_prefix, explicit_arg) :=
          match split_equals option_string with
          | Some (before, after) => (before, Some after)
          | None => (option_string, None)
          end in
        Fine (flat_map (fun entry : string * action =>
                          let (name, a) := entry in
                          if String.prefix option_prefix name
                          then [(a, name, explicit_arg)] else [])
                       option_string_actions)
      else if Ascii.eqb c0 dash then
        let short_option_prefix := String c0 (str1 c1) in
        let short_explicit_arg := tail in
        Fine (flat_map (fun entry : string * action =>
                          let (name, a) := entry in
                          if String.eqb name short_option_prefix
                          then [(a, name, Some short_explicit_arg)]
                          else if String.prefix option_string name
                               then [(a, name, None)] else [])
                       option_string_actions)
      else UsageError (unexpected_option_string option_string)
  | _ => UsageError (unexpected_option_string option_string)
  end.

Definition is_digit (c : ascii) : bool :=
  let n := nat_of_ascii c in Nat.leb 48 n && Nat.leb n 57.

(** What is left of [s] after its leading digits, and whether there was
    one. *)
Fixpoint skip_digits (s : string) : bool * string :=
  match s with
  | String c s' =>
      if is_digit c then (true, snd (skip_digits s')) else (false, s)
  | EmptyString => (false, s)
  end.

(** [$]: the end of the text, or a newline that ends it. *)
Definition at_end (s : string) : bool :=
  String.eqb s EmptyString || String.eqb s (str1 LF).

(** [re.match] of [^-\d+$|^-\d*\.\d+$] *)
Definition negative_number (s : string) : bool :=
  match s with
  | String c s' =>
      Ascii.eqb c dash
      && (let (some, rest) := skip_digits s' in
          (some && at_end rest)
          || match rest with
             | String d frac =>
                 Ascii.eqb d "."%char
                 && (let (some', rest') := skip_digits frac in some' && at_end rest')
             | EmptyString => false
             end)
  | EmptyString => false
  end.

(** [_parse_optional]: [None] for an argument taken for a positional, the
    option tuple (with no action when no option fits) otherwise. *)
Definition _parse_optional (arg_string : string)
  : parsing (option (option action * string * option string)) :=
  match arg_string with
  | EmptyString => Fine None
  | String c0 tail =>
      if negb (Ascii.eqb c0 dash) then Fine None
      else
        match dict_lookup option_string_actions arg_string with
        | Some a => Fine (Some (Some a, arg_string, None))
        | None =>
            match tail with
            | EmptyString => Fine None
            | _ =>
                let explicit :=
                  match split_equals arg_string with
                  | Some (option_string, explicit_arg) =>
                      match dict_lookup option_string_actions option_string with
                      | Some a => Some (a, option_string, explicit_arg)
                      | None => None
                      end
                  | None => None
                  end in
                match explicit with
                | Some (a, option_string, explicit_arg) =>
                    Fine (Some (Some a, option_string, Some explicit_arg))
                | None =>
                    match _get_option_tuples arg_string with
                    | UsageError e => UsageError e
                    | Fine [] =>
                        if negative_number arg_string then Fine None
                        else if contains " "%char arg_string then Fine None
                        else Fine (Some (None, arg_string, None))
                    | Fine [(a, option_string, explicit_arg)] =>
                        Fine (Some (Some a, option_string, explicit_arg))
                    | Fine option_tuples =>
                        UsageError (ambiguous_option arg_string
                                      (map (fun t : option_tuple => snd (fst t)) option_tuples))
                    end
                end
            end
        end
  end.

(** The first pass over the arguments: each with what [_parse_optional] makes
    of it; nothing after [--] is looked at. *)
Fixpoint find_options (arg_strings : list string)
  : parsing (list (string * option (option action * string * option string))) :=
  match arg_strings with
  | [] => Fine []
  | arg_string :: rest =>
      if String.eqb arg_string "--"
      then Fine ((arg_string, None) :: map (fun a => (a, None)) rest)
      else
        match _parse_optional arg_string with
        | UsageError e => UsageError e
        | Fine option_tuple =>
            match find_options rest with
            | UsageError e => UsageError e
            | Fine found => Fine ((arg_string, option_tuple) :: found)
            end
        end
  end.

Definition second_is_dash (option_string : string) : bool :=
  match option_string with
  | String _ (String c1 _) => Ascii.eqb c1 dash
  | _ => false
  end.

(** The loop of [consume_optional] on an option that came with an explicit
    argument: a single-dash option hands the characters of the argument on
    as further single-dash options; anything else is an error, since no
    action takes an argument. *)
Fixpoint consume_explicit (a : action) (option_string explicit_arg : string)
  : parsing (list action) :=
  match explicit_arg with
  | String c new_explicit_arg =>
      if negb (second_is_dash option_string) then
        let option_string' := String dash (str1 c) in
        match dict_lookup option_string_actions option_string' with
        | Some a' =>
            match new_explicit_arg with
            | EmptyString => Fine [a; a']
            | _ =>
                match consume_explicit a' option_string' new_explicit_arg with
                | Fine action_tuples => Fine (a :: action_tuples)
                | UsageError e => UsageError e
                end
            end
        | None => UsageError (ignored_explicit_argument a explicit_arg)
        end
      else UsageError (ignored_explicit_argument a explicit_arg)
  | EmptyString => UsageError (ignored_explicit_argument a explicit_arg)
  end.

Definition consume_optional (a : action) (option_string : string)
           (explicit_arg : option string) : parsing (list action) :=
  match explicit_arg with
  | Some e => consume_explicit a option_string e
  | None => Fine [a]
  end.

(** How [parse_args] ends: with the namespace, with the help printed and
    [exit(0)], or with [parser.error], which is [exit(2)]. *)
Inductive parse_outcome : Type :=
| Parsed (ns : Namespace)
| ExitHelp
| ExitError (e : usage_error).

(** [take_action] on the actions of one argument, in order: [None] when the
    help action has exited. *)
Fixpoint take_actions (action_tuples : list action) (ns : Namespace) : option Namespace :=
  match action_tuples with
  | [] => Some ns
  | help_action :: _ => None
  | store_true d :: rest => take_actions rest (set_true d ns)
  end.

(** The second pass, with no positional to fill: an option takes its action,
    anything else is kept as an extra; extras left at the end are
    unrecognized arguments. *)
Fixpoint consume (found : list (string * option (option action * string * option string)))
         (ns : Namespace) (extras : list string) : parse_outcome :=
  match found with
  | [] =>
      match extras with
      | [] => Parsed ns
      | _ => ExitError (unrecognized_arguments extras)
      end
  | (arg_string, None) :: rest => consume rest ns (extras ++ [arg_string])%list
  | (arg_string, Some (None, _, _)) :: rest => consume rest ns (extras ++ [arg_string])%list
  | (arg_string, Some (Some a, option_string, explicit_arg)) :: rest =>
      match consume_optional a option_string explicit_arg with
      | UsageError e => ExitError e
      | Fine action_tuples =>
          match take_actions action_tuples ns with
          | None => ExitHelp
          | Some ns' => consume rest ns' extras
          end
      end
  end.

(** [parse_options], on [sys.argv[1:]]. *)
Definition parse_options (argv : list string) : parse_outcome :=
  match find_options argv with
  | UsageError e => ExitError e
  | Fine found => consume found default_namespace []
  end.

(** How the process ends, with the exit status of [sys.exit] added. *)
Inductive process_end : Type :=
| Ended (t : termination)
| SystemExit (status : Z).

Section Program.

Variable requests_get : string -> list (string * value) -> result Response.
Variable json_loads : string -> result value.

(** [parser.format_help()], which depends on the name of the program and the
    width of the terminal. *)
Variable format_help : string.

(** The script from its command line: the options are parsed before the
    [try] statement. *)
Definition script (argv : list string) (out : stdout) : stdout * process_end :=
  match parse_options argv with
  | Parsed parsed_options =>
      let (out', t) := main requests_get json_loads parsed_options out in
      (out', Ended t)
  | ExitHelp => (out ++ format_help, SystemExit 0)
  | ExitError _ => (out, SystemExit 2)
  end.

End Program.

(** ** Fixtures *)

(** The writer [output_airports] builds for a configuration. *)
Definition script_writer (parsed_options : Namespace) : DictWriter :=
  {| fieldnames := get_fieldnames parsed_options;
     restval := VStr EmptyString;
     extrasaction := extras_ignore |}.

(** The body of the loop of [output_airports]. *)
Definition write_airport (o : Namespace) (airport : value) : io unit :=
  row <~ lift (create_airport_row airport) ;;
  DictWriter_writerow (script_writer o) row.

(** The header line as the specification words it: the field names joined by
    commas, then the line terminator. *)
Definition header_line (parsed_options : Namespace) : string :=
  String.concat "," (get_fieldnames parsed_options) ++ lineterminator.

(** The line for one row: the cells of the field list, in its order. *)
Definition row_line (parsed_options : Namespace) (row : list (string * value)) : string :=
  join_fields (map (fun key => dict_get row key (VStr EmptyString))
                   (get_fieldnames parsed_options)) ++ lineterminator.

Fixpoint row_lines (parsed_options : Namespace) (rows : list (list (string * value))) : string :=
  match rows with
  | [] => EmptyString
  | row :: rows' => row_line parsed_options row ++ row_lines parsed_options rows'
  end.

(** The groups the switches select, as the specification words them: each
    switch set contributes its group, in the fixed order names, cities,
    coords, iata. *)
Definition group (flag : bool) (fields : list string) : list string :=
  if flag then fields else [].

Definition selected_groups (o : Namespace) : list string :=
  (group (names o) ["name"] ++ group (cities o) ["city"]
     ++ group (coords o) ["lon"; "lat"] ++ group (iata o) ["iata"])%list.

(** The path [v[k1][k2]...] through nested dicts, when every key is there. *)
Fixpoint path_lookup (v : value) (path : list string) : option value :=
  match path with
  | [] => Some v
  | key :: path' =>
      match v with
      | VDict d =>
          match dict_lookup d key with
          | Some x => path_lookup x path'
          | None => None
          end
      | _ => None
      end
  end.

(** The message the specification gives for a failed fetch, and the one
    [get_airports] raises. *)
Definition spec_message : string := "Could not fetch data from locations API.".
Definition fetch_message : string := "Could not fetch data from kiwi locations API.".

(** A server that answers every request with [r]. *)
Definition respond (r : Response) : string -> list (string * value) -> result Response :=
  fun _ _ => Ok r.

(** A decoder that knows one body, and takes any other text for malformed. *)
Definition loads_only (body : string) (doc : value) : string -> result value :=
  fun s =>
    if String.eqb s body then Ok doc
    else Raise (JSONDecodeError "Expecting value: line 1 column 1 (char 0)").

Definition q (s : string) : string := str1 dquote ++ s ++ str1 dquote.

Definition response_500 : Response := {| status_code := 500; text := EmptyString |}.

(** [{"locations": []}] *)
Definition empty_body : string := "{" ++ q "locations" ++ ": []}".
Definition empty_doc : value := VDict [("locations", VList [])].

(** [{"locations": [{}]}]: one record, with no field at all. *)
Definition bare_body : string := "{" ++ q "locations" ++ ": [{}]}".
Definition bare_doc : value := VDict [("locations", VList [VDict []])].

Definition heathrow_text : string :=
  "{" ++ q "name" ++ ": " ++ q "Heathrow" ++ ", "
      ++ q "city" ++ ": {" ++ q "name" ++ ": " ++ q "London" ++ "}, "
      ++ q "location" ++ ": {" ++ q "lon" ++ ": -0.45, " ++ q "lat" ++ ": 51.47}, "
      ++ q "code" ++ ": " ++ q "LHR" ++ "}".


Definition no_options : Namespace :=
  {| cities := false; coords := false; iata := false; names := false; full := false |}.

Definition heathrow : value :=
  VDict [("name", VStr "Heathrow");
         ("city", VDict [("name", VStr "London")]);
         ("location", VDict [("lon", VFloat "-0.45"); ("lat", VFloat "51.47")]);
         ("code", VStr "LHR")].

Definition heathrow_row : list (string * value) :=
  [("name", VStr "Heathrow"); ("city", VStr "London");
   ("lon", VFloat "-0.45"); ("lat", VFloat "51.47"); ("iata", VStr "LHR")].


(** [{"locations": [<Heathrow>]}], the record of the end-to-end scenarios. *)
Definition heathrow_body : string := "{" ++ q "locations" ++ ": [" ++ heathrow_text ++ "]}".
Definition heathrow_doc : value := VDict [("locations", VList [heathrow])].

Definition response_200 (body : string) : Response := {| status_code := 200; text := body |}.

(** The five columns, in the order of the full output. *)
Definition all_fields : list string := ["name"; "city"; "lon"; "lat"; "iata"].

(** How often a character occurs in a text. *)
Fixpoint count_char (c : ascii) (s : string) : nat :=
  match s with
  | EmptyString => 0
  | String c' s' => (if Ascii.eqb c' c then 1 else 0) + count_char c s'
  end.

(** A text of code points below 128 only: every encoding standard output
    can have encodes it. *)
Fixpoint is_ascii (s : string) : bool :=
  match s with
  | EmptyString => true
  | String c s' => Nat.ltb (nat_of_ascii c) 128 && is_ascii s'
  end.

(** The option string of each switch, and the attribute it sets. *)
Definition option_of (d : dest) : string :=
  match d with
  | dest_cities => "--cities"
  | dest_coords => "--coords"
  | dest_iata => "--iata"
  | dest_names => "--names"
  | dest_full => "--full"
  end.

Definition attribute (d : dest) (ns : Namespace) : bool :=
  match d with
  | dest_cities => cities ns
  | dest_coords => coords ns
  | dest_iata => iata ns
  | dest_names => names ns
  | dest_full => full ns
  end.

(** All the prefixes of a text, the empty one and the text itself among
    them. *)
Fixpoint prefixes (s : string) : list string :=
  match s with
  | EmptyString => [EmptyString]
  | String c s' => EmptyString :: map (String c) (prefixes s')
  end.

(** An argument the parser has no use for whatever comes with it: the bare
    [--], or one that does not start with a dash. *)
Definition not_an_option (arg : string) : bool :=
  match arg with
  | EmptyString => true
  | String c _ => negb (Ascii.eqb c dash) || String.eqb arg "--"
  end.

(** Two command lines are read alike: the first pass fails on both for the
    same reason, or the second pass treats what was found alike. *)
Definition read_alike (argv argv' : list string) : Prop :=
  match find_options argv, find_options argv' with
  | UsageError e, UsageError e' => e = e'
  | Fine found, Fine found' =>
      forall ns extras, consume found ns extras = consume found' ns extras
  | _, _ => False
  end.

(** ** Strings and the output monad *)

Lemma append_assoc (a b c : string) : (a ++ b) ++ c = a ++ (b ++ c).
Proof.
  induction a as [| x a IH]; simpl; [reflexivity | now rewrite IH].
Qed.

Lemma append_nil_r (a : string) : a ++ EmptyString = a.
Proof.
  induction a as [| x a IH]; simpl; [reflexivity | now rewrite IH].
Qed.

Lemma rbind_ok {A B : Type} (a : A) (k : A -> result B) : rbind (Ok a) k = k a.
Proof. reflexivity. Qed.

(** ** The field list *)

Ltac flags o := destruct o as [[] [] [] [] []]; simpl in *; try discriminate.

Lemma get_fieldnames_nonempty (o : Namespace) : get_fieldnames o <> [].
Proof. flags o; cbv; discriminate. Qed.

(** C3: with [full] set the field list is name, city, lon, lat, iata,
    whatever the other four switches are. *)
Theorem get_fieldnames_full (o : Namespace) :
  full o = true ->
  get_fieldnames o = ["name"; "city"; "lon"; "lat"; "iata"].
Proof. intros H. flags o; reflexivity. Qed.

Lemma get_fieldnames_full_witness :
  get_fieldnames {| cities := true; coords := false; iata := true;
                    names := false; full := true |}
  = ["name"; "city"; "lon"; "lat"; "iata"].
Proof. apply get_fieldnames_full. reflexivity. Defined.

(** C4: with all five switches off the field list is just name. *)
Theorem get_fieldnames_no_flag (o : Namespace) :
  cities o = false -> coords o = false -> iata o = false ->
  names o = false -> full o = false ->
  get_fieldnames o = ["name"].
Proof. intros Hc Hco Hi Hn Hf. flags o; reflexivity. Qed.

Lemma get_fieldnames_no_flag_witness : get_fieldnames no_options = ["name"].
Proof. apply get_fieldnames_no_flag; reflexivity. Defined.

(** C5: with [full] off and at least one of names, cities, coords, iata on,
    the field list is the selected groups in the fixed order (names gives
    name, cities gives city, coords gives lon and lat, iata gives iata); it
    has no duplicate, and every field in it comes from a selected group. *)
Theorem get_fieldnames_groups (o : Namespace) :
  full o = false ->
  names o || cities o || coords o || iata o = true ->
  get_fieldnames o = selected_groups o
  /\ NoDup (get_fieldnames o)
  /\ (forall f, In f (get_fieldnames o) ->
        (names o = true /\ f = "name")
        \/ (cities o = true /\ f = "city")
        \/ (coords o = true /\ (f = "lon" \/ f = "lat"))
        \/ (iata o = true /\ f = "iata")).
Proof.
  intros Hf Hany.
  flags o;
    (split; [reflexivity |
     split; [repeat constructor; simpl; intuition discriminate |
             intros f Hin; simpl in Hin; intuition (subst; auto)]]).
Qed.

Lemma get_fieldnames_groups_witness :
  get_fieldnames {| cities := false; coords := true; iata := true;
                    names := false; full := false |}
  = ["lon"; "lat"; "iata"].
Proof.
  exact (proj1 (get_fieldnames_groups
                  {| cities := false; coords := true; iata := true;
                     names := false; full := false |}
                  eq_refl eq_refl)).
Defined.

(** ** The writer *)

Lemma dict_to_list_ignore (w : DictWriter) (rowdict : list (string * value)) :
  extrasaction w = extras_ignore ->
  _dict_to_list w rowdict
  = Ok (map (fun key => dict_get rowdict key (restval w)) (fieldnames w)).
Proof.
  intros H. unfold _dict_to_list. now rewrite H.
Qed.

Lemma writeheader_script (o : Namespace) (out : stdout) :
  DictWriter_writeheader (script_writer o) out = (out ++ header_line o, Ok tt).
Proof. flags o; reflexivity. Qed.

Lemma writerow_script (o : Namespace) (row : list (string * value)) (out : stdout) :
  DictWriter_writerow (script_writer o) row out = (out ++ row_line o row, Ok tt).
Proof.
  unfold DictWriter_writerow, io_bind, lift.
  rewrite dict_to_list_ignore by reflexivity. reflexivity.
Qed.

Lemma map_ext_in_fields (row row' : list (string * value)) (fields : list string) (default : value) :
  (forall k, In k fields -> dict_lookup row k = dict_lookup row' k) ->
  map (fun key => dict_get row key default) fields
  = map (fun key => dict_get row' key default) fields.
Proof.
  intros H. apply map_ext_in. intros k Hk. unfold dict_get. now rewrite (H k Hk).
Qed.

(** ** [output_airports] *)

Lemma output_airports_after_header (doc : value) (o : Namespace) (out : stdout) :
  output_airports doc o out
  = (locations <~ lift (getitem doc "locations") ;;
     airports <~ lift (iter locations) ;;
     for_each airports (write_airport o)) (out ++ header_line o).
Proof.
  unfold output_airports. unfold io_bind at 1.
  change {| fieldnames := get_fieldnames o; restval := VStr EmptyString;
            extrasaction := extras_ignore |} with (script_writer o).
  now rewrite writeheader_script.
Qed.

Lemma for_each_rows (o : Namespace) (airports : list value) (rows : list (list (string * value))) :
  Forall2 (fun airport row => create_airport_row airport = Ok row) airports rows ->
  forall out, for_each airports (write_airport o) out = (out ++ row_lines o rows, Ok tt).
Proof.
  induction 1 as [| airport row airports rows Hrow _ IH]; intros out; simpl.
  - unfold io_ret. now rewrite append_nil_r.
  - unfold io_bind at 1, write_airport at 1, io_bind at 1, lift.
    rewrite Hrow, writerow_script, IH. now rewrite append_assoc.
Qed.

Lemma for_each_fails (o : Namespace) (good : list value) (rows : list (list (string * value)))
      (bad : value) (e : exception) (rest : list value) :
  Forall2 (fun airport row => create_airport_row airport = Ok row) good rows ->
  create_airport_row bad = Raise e ->
  forall out,
    for_each (good ++ bad :: rest)%list (write_airport o) out
    = (out ++ row_lines o rows, Raise e).
Proof.
  intros Hgood Hbad.
  induction Hgood as [| airport row good rows Hrow _ IH]; intros out; simpl.
  - unfold io_bind at 1, write_airport at 1, io_bind at 1, lift.
    rewrite Hbad. now rewrite append_nil_r.
  - unfold io_bind at 1, write_airport at 1, io_bind at 1, lift.
    rewrite Hrow, writerow_script, IH. now rewrite append_assoc.
Qed.

Lemma output_airports_rows (o : Namespace) (d : list (string * value))
      (airports : list value) (rows : list (list (string * value))) (out : stdout) :
  dict_lookup d "locations" = Some (VList airports) ->
  Forall2 (fun airport row => create_airport_row airport = Ok row) airports rows ->
  output_airports (VDict d) o out = (out ++ header_line o ++ row_lines o rows, Ok tt).
Proof.
  intros Hloc Hrows. rewrite output_airports_after_header.
  unfold io_bind, lift. simpl. rewrite Hloc. simpl.
  rewrite (for_each_rows o airports rows Hrows). now rewrite append_assoc.
Qed.

Lemma output_airports_fails_at (o : Namespace) (d : list (string * value))
      (good : list value) (rows : list (list (string * value)))
      (bad : value) (e : exception) (rest : list value) (out : stdout) :
  dict_lookup d "locations" = Some (VList (good ++ bad :: rest)%list) ->
  Forall2 (fun airport row => create_airport_row airport = Ok row) good rows ->
  create_airport_row bad = Raise e ->
  output_airports (VDict d) o out = (out ++ header_line o ++ row_lines o rows, Raise e).
Proof.
  intros Hloc Hgood Hbad. rewrite output_airports_after_header.
  unfold io_bind, lift. simpl. rewrite Hloc. simpl.
  rewrite (for_each_fails o good rows bad e rest Hgood Hbad). now rewrite append_assoc.
Qed.

Lemma output_airports_no_locations (o : Namespace) (doc : value) (e : exception) (out : stdout) :
  getitem doc "locations" = Raise e ->
  output_airports doc o out = (out ++ header_line o, Raise e).
Proof.
  intros H. rewrite output_airports_after_header.
  unfold io_bind, lift. now rewrite H.
Qed.



(** ** The row mapper *)

Lemma getitem_path (v : value) (key : string) :
  match getitem v key with
  | Ok x => path_lookup v [key] = Some x
  | Raise _ => path_lookup v [key] = None
  end.
Proof.
  destruct v; simpl; try reflexivity.
  destruct (dict_lookup d key); reflexivity.
Qed.

Lemma getitem_path2 (v : value) (key key' : string) :
  match (x <- getitem v key ;; getitem x key') with
  | Ok y => path_lookup v [key; key'] = Some y
  | Raise _ => path_lookup v [key; key'] = None
  end.
Proof.
  destruct v; simpl; try reflexivity.
  destruct (dict_lookup d key) as [x |]; simpl; [| reflexivity].
  apply (getitem_path x key').
Qed.

Lemma path_lookup_getitem (v x : value) (key : string) :
  path_lookup v [key] = Some x -> getitem v key = Ok x.
Proof.
  intros H. pose proof (getitem_path v key) as P.
  destruct (getitem v key); congruence.
Qed.

Lemma path_lookup_getitem2 (v y : value) (key key' : string) :
  path_lookup v [key; key'] = Some y ->
  exists x, getitem v key = Ok x /\ getitem x key' = Ok y.
Proof.
  intros H. pose proof (getitem_path2 v key key') as P.
  destruct (getitem v key) as [x | e]; unfold rbind in P; [| congruence].
  exists x. split; [reflexivity |].
  destruct (getitem x key'); congruence.
Qed.

Lemma create_airport_row_ok (airport name city lon lat code : value) :
  path_lookup airport ["name"] = Some name ->
  path_lookup airport ["city"; "name"] = Some city ->
  path_lookup airport ["location"; "lon"] = Some lon ->
  path_lookup airport ["location"; "lat"] = Some lat ->
  path_lookup airport ["code"] = Some code ->
  create_airport_row airport
  = Ok [("name", name); ("city", city); ("lon", lon); ("lat", lat); ("iata", code)].
Proof.
  intros Hn Hc Hlo Hla Hco. unfold create_airport_row.
  destruct (path_lookup_getitem2 _ _ _ _ Hc) as [c [Hc1 Hc2]].
  destruct (path_lookup_getitem2 _ _ _ _ Hlo) as [l [Hl Hlon]].
  destruct (path_lookup_getitem2 _ _ _ _ Hla) as [l' [Hl' Hlat]].
  assert (l' = l) as -> by congruence.
  rewrite (path_lookup_getitem _ _ _ Hn), rbind_ok.
  rewrite Hc1, rbind_ok, Hc2, rbind_ok.
  rewrite Hl, rbind_ok, Hlon, rbind_ok, rbind_ok, Hlat, rbind_ok.
  rewrite (path_lookup_getitem _ _ _ Hco), rbind_ok. reflexivity.
Qed.

Lemma create_airport_row_inv (airport : value) (row : list (string * value)) :
  create_airport_row airport = Ok row ->
  exists name city lon lat code,
    path_lookup airport ["name"] = Some name
    /\ path_lookup airport ["city"; "name"] = Some city
    /\ path_lookup airport ["location"; "lon"] = Some lon
    /\ path_lookup airport ["location"; "lat"] = Some lat
    /\ path_lookup airport ["code"] = Some code
    /\ row = [("name", name); ("city", city); ("lon", lon); ("lat", lat); ("iata", code)].
Proof.
  unfold create_airport_row. intros H.
  pose proof (getitem_path airport "name") as Pn.
  pose proof (getitem_path2 airport "city" "name") as Pc.
  pose proof (getitem_path2 airport "location" "lon") as Plo.
  pose proof (getitem_path2 airport "location" "lat") as Pla.
  pose proof (getitem_path airport "code") as Pco.
  unfold rbind in *.
  destruct (getitem airport "name") as [name |]; [| discriminate].
  destruct (getitem airport "city") as [c |]; [| discriminate].
  destruct (getitem c "name") as [city |]; [| discriminate].
  destruct (getitem airport "location") as [l |]; [| discriminate].
  destruct (getitem l "lon") as [lon |]; [| discriminate].
  destruct (getitem l "lat") as [lat |]; [| discriminate].
  destruct (getitem airport "code") as [code |]; [| discriminate].
  injection H as <-.
  exists name, city, lon, lat, code. repeat split; assumption.
Qed.

(** C6: the row mapper is a function of the record alone.  On a record that
    has the five fields it returns exactly the row of name, city (the name of
    the city), lon, lat (of the location) and iata (the code), in that order;
    a row it returns always holds exactly those five values of the record;
    and when one of the five is absent it raises, and returns no row. *)
Theorem create_airport_row_maps_fields (airport : value) :
  (forall name city lon lat code,
      path_lookup airport ["name"] = Some name ->
      path_lookup airport ["city"; "name"] = Some city ->
      path_lookup airport ["location"; "lon"] = Some lon ->
      path_lookup airport ["location"; "lat"] = Some lat ->
      path_lookup airport ["code"] = Some code ->
      create_airport_row airport
      = Ok [("name", name); ("city", city); ("lon", lon); ("lat", lat); ("iata", code)])
  /\ (forall row,
         create_airport_row airport = Ok row ->
         exists name city lon lat code,
           path_lookup airport ["name"] = Some name
           /\ path_lookup airport ["city"; "name"] = Some city
           /\ path_lookup airport ["location"; "lon"] = Some lon
           /\ path_lookup airport ["location"; "lat"] = Some lat
           /\ path_lookup airport ["code"] = Some code
           /\ row = [("name", name); ("city", city); ("lon", lon); ("lat", lat);
                     ("iata", code)])
  /\ (path_lookup airport ["name"] = None
      \/ path_lookup airport ["city"; "name"] = None
      \/ path_lookup airport ["location"; "lon"] = None
      \/ path_lookup airport ["location"; "lat"] = None
      \/ path_lookup airport ["code"] = None ->
      exists e, create_airport_row airport = Raise e).
Proof.
  split; [| split].
  - intros name city lon lat code. apply create_airport_row_ok.
  - apply create_airport_row_inv.
  - intros Habsent.
    destruct (create_airport_row airport) as [row | e] eqn:Hrow; [| now exists e].
    destruct (create_airport_row_inv airport row Hrow)
      as (name & city & lon & lat & code & Hn & Hc & Hlo & Hla & Hco & _).
    destruct Habsent as [H | [H | [H | [H | H]]]]; congruence.
Qed.

Lemma create_airport_row_maps_fields_witness :
  create_airport_row heathrow = Ok heathrow_row
  /\ exists e, create_airport_row (VDict [("name", VStr "Heathrow")]) = Raise e.
Proof.
  split.
  - apply (proj1 (create_airport_row_maps_fields heathrow)); reflexivity.
  - apply (proj2 (proj2 (create_airport_row_maps_fields (VDict [("name", VStr "Heathrow")])))).
    right. left. reflexivity.
Defined.

(** ** The fetch and the top level *)

Section TopLevel.

Variable requests_get : string -> list (string * value) -> result Response.
Variable json_loads : string -> result value.

Lemma ok_false_iff (r : Response) :
  ok r = false <-> (400 <= status_code r < 600)%Z.
Proof.
  unfold ok. rewrite negb_false_iff, andb_true_iff, Z.leb_le, Z.ltb_lt. reflexivity.
Qed.

Lemma ok_2xx (r : Response) : (200 <= status_code r < 300)%Z -> ok r = true.
Proof.
  intros H. destruct (ok r) eqn:E; [reflexivity |].
  apply ok_false_iff in E. lia.
Qed.

Lemma get_airports_not_ok (iso : string) (limit : Z) (r : Response) :
  requests_get locations_url (locations_params iso limit) = Ok r ->
  ok r = false ->
  get_airports requests_get json_loads iso limit = Raise (Exception fetch_message).
Proof. intros Hget Hok. unfold get_airports. now rewrite Hget, rbind_ok, Hok. Qed.

Lemma get_airports_ok (iso : string) (limit : Z) (r : Response) :
  requests_get locations_url (locations_params iso limit) = Ok r ->
  ok r = true ->
  get_airports requests_get json_loads iso limit = json_loads (text r).
Proof. intros Hget Hok. unfold get_airports. now rewrite Hget, rbind_ok, Hok. Qed.

Lemma get_airports_network (iso : string) (limit : Z) (e : exception) :
  requests_get locations_url (locations_params iso limit) = Raise e ->
  get_airports requests_get json_loads iso limit = Raise e.
Proof. intros Hget. unfold get_airports. now rewrite Hget. Qed.

Lemma try_body_fetch_raise (o : Namespace) (out : stdout) (e : exception) :
  get_airports requests_get json_loads "GB" 100 = Raise e ->
  try_body requests_get json_loads o out = (out, Raise e).
Proof. intros H. unfold try_body, io_bind, lift. now rewrite H. Qed.

Lemma try_body_fetch_ok (o : Namespace) (out : stdout) (doc : value) :
  get_airports requests_get json_loads "GB" 100 = Ok doc ->
  try_body requests_get json_loads o out = output_airports doc o out.
Proof. intros H. unfold try_body, io_bind, lift. now rewrite H. Qed.

Lemma main_caught (o : Namespace) (out out' : stdout) (e : exception) :
  try_body requests_get json_loads o out = (out', Raise e) ->
  is_Exception e = true ->
  main requests_get json_loads o out = (out' ++ str_exception e ++ str1 LF, ExitNormally).
Proof. intros Hbody He. unfold main. now rewrite Hbody, He. Qed.

Lemma main_uncaught (o : Namespace) (out out' : stdout) (e : exception) :
  try_body requests_get json_loads o out = (out', Raise e) ->
  is_Exception e = false ->
  main requests_get json_loads o out = (out', Uncaught e).
Proof. intros Hbody He. unfold main. now rewrite Hbody, He. Qed.

End TopLevel.

(** C1, as the code has it: when the response is not [ok] (status 400 to
    599), [get_airports] raises a plain [Exception] whose message is "Could
    not fetch data from kiwi locations API."; the top level prints that
    message and a newline on standard output and the process ends
    normally. *)
Theorem main_prints_fetch_failure
        (requests_get : string -> list (string * value) -> result Response)
        (json_loads : string -> result value)
        (o : Namespace) (r : Response) (out : stdout) :
  requests_get locations_url (locations_params "GB" 100) = Ok r ->
  (400 <= status_code r < 600)%Z ->
  get_airports requests_get json_loads "GB" 100
  = Raise (Exception "Could not fetch data from kiwi locations API.")
  /\ main requests_get json_loads o out
     = (out ++ "Could not fetch data from kiwi locations API." ++ str1 LF, ExitNormally).
Proof.
  intros Hget Hstatus. apply ok_false_iff in Hstatus.
  pose proof (get_airports_not_ok requests_get json_loads "GB" 100 r Hget Hstatus) as Hraise.
  split; [exact Hraise |].
  apply (main_caught requests_get json_loads o out out (Exception fetch_message));
    [now apply try_body_fetch_raise | reflexivity].
Qed.

Lemma main_prints_fetch_failure_witness :
  main (respond response_500) (loads_only empty_body empty_doc) no_options EmptyString
  = ("Could not fetch data from kiwi locations API." ++ str1 LF, ExitNormally).
Proof.
  refine (proj2 (main_prints_fetch_failure (respond response_500)
                   (loads_only empty_body empty_doc) no_options response_500 EmptyString
                   _ _)); [reflexivity | simpl; lia].
Defined.

(** C1 as the specification words it fails on the message: on a status 500
    the line printed is not "Could not fetch data from locations API.". *)
Lemma spec_message_not_printed :
  ok response_500 = false
  /\ main (respond response_500) (loads_only empty_body empty_doc) no_options EmptyString
     <> (spec_message ++ str1 LF, ExitNormally).
Proof. split; [reflexivity | vm_compute; discriminate]. Qed.

(** C2, as the code has it: the handler is [except Exception], so whatever
    the fetch or the output raises that is an [Exception] (a malformed body,
    a key that is missing, a subscript on the wrong type, a network error as
    much as the failed status) is caught: its [str] and a newline are printed
    on standard output, after what was already written, and the process ends
    normally.  Only an exception outside [Exception] goes up uncaught. *)
Theorem main_catches_every_Exception
        (requests_get : string -> list (string * value) -> result Response)
        (json_loads : string -> result value)
        (o : Namespace) (out : stdout) :
  (forall out' e,
      try_body requests_get json_loads o out = (out', Raise e) ->
      is_Exception e = true ->
      main requests_get json_loads o out = (out' ++ str_exception e ++ str1 LF, ExitNormally))
  /\ (forall out' e,
         try_body requests_get json_loads o out = (out', Raise e) ->
         is_Exception e = false ->
         main requests_get json_loads o out = (out', Uncaught e))
  /\ (forall msg,
         requests_get locations_url (locations_params "GB" 100)
         = Raise (RequestException msg) ->
         main requests_get json_loads o out = (out ++ msg ++ str1 LF, ExitNormally))
  /\ (forall r msg,
         requests_get locations_url (locations_params "GB" 100) = Ok r ->
         ok r = true ->
         json_loads (text r) = Raise (JSONDecodeError msg) ->
         main requests_get json_loads o out = (out ++ msg ++ str1 LF, ExitNormally))
  /\ (forall r d good rows bad rest key,
         requests_get locations_url (locations_params "GB" 100) = Ok r ->
         ok r = true ->
         json_loads (text r) = Ok (VDict d) ->
         dict_lookup d "locations" = Some (VList (good ++ bad :: rest)%list) ->
         Forall2 (fun airport row => create_airport_row airport = Ok row) good rows ->
         create_airport_row bad = Raise (KeyError key) ->
         main requests_get json_loads o out
         = ((out ++ header_line o ++ row_lines o rows) ++ repr_str key ++ str1 LF,
            ExitNormally)).
Proof.
  split; [| split; [| split; [| split]]].
  - intros out' e. apply main_caught.
  - intros out' e. apply main_uncaught.
  - intros msg Hget.
    apply (main_caught _ _ o out out (RequestException msg)); [| reflexivity].
    apply try_body_fetch_raise. now apply get_airports_network.
  - intros r msg Hget Hok Hloads.
    apply (main_caught _ _ o out out (JSONDecodeError msg)); [| reflexivity].
    apply try_body_fetch_raise.
    now rewrite (get_airports_ok _ _ _ _ r Hget Hok).
  - intros r d good rows bad rest key Hget Hok Hloads Hloc Hgood Hbad.
    apply (main_caught _ _ o out _ (KeyError key)); [| reflexivity].
    rewrite (try_body_fetch_ok _ _ o out (VDict d)).
    + now apply (output_airports_fails_at o d good rows bad (KeyError key) rest).
    + now rewrite (get_airports_ok _ _ _ _ r Hget Hok).
Qed.

Lemma main_catches_every_Exception_witness :
  main (respond (response_200 bare_body)) (loads_only bare_body bare_doc)
       no_options EmptyString
  = (("name" ++ lineterminator) ++ "'name'" ++ str1 LF, ExitNormally).
Proof.
  refine (proj1 (main_catches_every_Exception
                   (respond (response_200 bare_body)) (loads_only bare_body bare_doc)
                   no_options EmptyString)
                ("name" ++ lineterminator) (KeyError "name") _ _);
    reflexivity.
Defined.

(** C2 as the specification words it fails: a record that lacks a field
    raises a [KeyError] in the row mapper, and the top level catches it, prints
    it and ends normally. *)
Lemma missing_field_is_caught :
  try_body (respond (response_200 bare_body)) (loads_only bare_body bare_doc)
           no_options EmptyString
  = ("name" ++ lineterminator, Raise (KeyError "name"))
  /\ snd (main (respond (response_200 bare_body)) (loads_only bare_body bare_doc)
               no_options EmptyString)
     <> Uncaught (KeyError "name").
Proof. split; [reflexivity | vm_compute; discriminate]. Qed.

(** C7, as the code has it: on a 2xx response [get_airports] decodes the body
    and returns the whole decoded document, whatever it is; the array under
    [locations] is taken out of it by [output_airports], which writes the
    header and then goes through that array. *)
Theorem get_airports_returns_document
        (requests_get : string -> list (string * value) -> result Response)
        (json_loads : string -> result value)
        (iso_country_code : string) (limit : Z) (r : Response) :
  requests_get locations_url (locations_params iso_country_code limit) = Ok r ->
  (200 <= status_code r < 300)%Z ->
  get_airports requests_get json_loads iso_country_code limit = json_loads (text r)
  /\ (forall doc airports o out,
         getitem doc "locations" = Ok (VList airports) ->
         output_airports doc o out
         = for_each airports (write_airport o) (out ++ header_line o)).
Proof.
  intros Hget Hstatus. split.
  - apply (get_airports_ok requests_get json_loads _ _ r Hget). now apply ok_2xx.
  - intros doc airports o out Hloc.
    rewrite output_airports_after_header. unfold io_bind, lift. now rewrite Hloc.
Qed.

Lemma get_airports_returns_document_witness :
  get_airports (respond (response_200 empty_body)) (loads_only empty_body empty_doc) "GB" 100
  = Ok empty_doc.
Proof.
  refine (proj1 (get_airports_returns_document
                   (respond (response_200 empty_body)) (loads_only empty_body empty_doc)
                   "GB" 100 (response_200 empty_body) _ _)); [reflexivity | simpl; lia].
Defined.

(** C7 as the specification words it fails: for the body
    [{"locations": []}] the fetch returns the object, not the array in it. *)
Lemma get_airports_not_the_array :
  getitem empty_doc "locations" = Ok (VList [])
  /\ get_airports (respond (response_200 empty_body)) (loads_only empty_body empty_doc)
                  "GB" 100
     <> Ok (VList []).
Proof. split; [reflexivity | vm_compute; discriminate]. Qed.

(** ** What the writer lets through *)

(** C8: the writer of the script never raises on a row, whatever keys the row
    has; the line it writes is made of the row's cells for the names of the
    field list, in the order of the field list, and of nothing else: two rows
    that agree on the field list give the same output, whatever else they
    hold.  So for any list of records that map to rows, the output is the
    header line and then those lines. *)
Theorem writer_emits_only_listed_fields (o : Namespace) (row row' : list (string * value))
        (out : stdout) :
  (forall key, In key (get_fieldnames o) -> dict_lookup row key = dict_lookup row' key) ->
  DictWriter_writerow (script_writer o) row out
  = (out ++ join_fields (map (fun key => dict_get row key (VStr EmptyString))
                             (get_fieldnames o)) ++ lineterminator,
     Ok tt)
  /\ DictWriter_writerow (script_writer o) row' out
     = DictWriter_writerow (script_writer o) row out
  /\ (forall d airports rows,
         dict_lookup d "locations" = Some (VList airports) ->
         Forall2 (fun airport r => create_airport_row airport = Ok r) airports rows ->
         output_airports (VDict d) o out
         = (out ++ header_line o ++ row_lines o rows, Ok tt)).
Proof.
  intros Hagree. split; [| split].
  - apply writerow_script.
  - rewrite !writerow_script. unfold row_line.
    now rewrite (map_ext_in_fields row row' (get_fieldnames o) _ Hagree).
  - intros d airports rows. apply output_airports_rows.
Qed.

Lemma writer_emits_only_listed_fields_witness :
  DictWriter_writerow (script_writer no_options)
                      [("iata", VStr "CDG"); ("name", VStr "Heathrow")] EmptyString
  = DictWriter_writerow (script_writer no_options) heathrow_row EmptyString.
Proof.
  refine (proj1 (proj2 (writer_emits_only_listed_fields
                          no_options heathrow_row
                          [("iata", VStr "CDG"); ("name", VStr "Heathrow")]
                          EmptyString _))).
  intros key [<- | []]. reflexivity.
Defined.

(** With [extrasaction='raise'] the same row would be refused: the writer of
    the script lets extra keys pass because it is built with ['ignore']. *)
Remark writerow_raise_refuses_extras :
  exists msg,
    DictWriter_writerow {| fieldnames := ["name"]; restval := VStr EmptyString;
                           extrasaction := extras_raise |} heathrow_row EmptyString
    = (EmptyString, Raise (ValueError msg)).
Proof. eexists. reflexivity. Qed.

(** ** Failures and the output *)

Lemma getitem_raises (v : value) (key : string) (e : exception) :
  getitem v key = Raise e ->
  e = KeyError key \/ exists msg, e = TypeError msg.
Proof.
  destruct v; simpl; intros H; try (injection H as <-; right; eauto; fail).
  destruct (dict_lookup d key); [discriminate | injection H as <-; now left].
Qed.

Lemma for_each_cons (o : Namespace) (airport : value) (airports : list value) (out : stdout) :
  for_each (airport :: airports) (write_airport o) out
  = match create_airport_row airport with
    | Ok row => for_each airports (write_airport o) (out ++ row_line o row)
    | Raise e => (out, Raise e)
    end.
Proof.
  simpl. unfold io_bind at 1, write_airport at 1, io_bind at 1, lift.
  destruct (create_airport_row airport) as [row | e]; [| reflexivity].
  now rewrite writerow_script.
Qed.

Lemma getitem_raises_Exception (v : value) (key : string) (e : exception) :
  getitem v key = Raise e -> is_Exception e = true.
Proof.
  intros H. now destruct (getitem_raises v key e H) as [-> | [msg ->]].
Qed.

Lemma create_airport_row_raises_Exception (airport : value) (e : exception) :
  create_airport_row airport = Raise e -> is_Exception e = true.
Proof.
  unfold create_airport_row, rbind. intros H.
  repeat match type of H with
         | match getitem ?v ?k with _ => _ end = _ =>
             let E := fresh "E" in
             destruct (getitem v k) eqn:E;
             [| injection H as <-; exact (getitem_raises_Exception _ _ _ E)]
         end.
  discriminate.
Qed.

Lemma for_each_raises_Exception (o : Namespace) (airports : list value)
      (out out' : stdout) (e : exception) :
  for_each airports (write_airport o) out = (out', Raise e) -> is_Exception e = true.
Proof.
  revert out. induction airports as [| airport airports IH]; intros out H.
  - discriminate.
  - rewrite for_each_cons in H.
    destruct (create_airport_row airport) as [row | e'] eqn:E.
    + now apply (IH _ H).
    + injection H as _ <-. now apply (create_airport_row_raises_Exception airport).
Qed.

Lemma output_airports_raises_Exception (doc : value) (o : Namespace)
      (out out' : stdout) (e : exception) :
  output_airports doc o out = (out', Raise e) -> is_Exception e = true.
Proof.
  rewrite output_airports_after_header. unfold io_bind, lift. intros H.
  destruct (getitem doc "locations") as [locations | e'] eqn:Eloc.
  - destruct (iter locations) as [airports | e''] eqn:Eiter.
    + now apply (for_each_raises_Exception o airports _ _ e H).
    + injection H as _ <-. destruct locations; simpl in Eiter; try discriminate;
        now injection Eiter as <-.
  - injection H as _ <-. now apply (getitem_raises_Exception doc "locations").
Qed.





(** ** The header *)

(** C10: for every configuration the field list is not empty; the header the
    writer emits is the field names joined by commas and the line terminator,
    and that joined text is not empty; and when the array under [locations]
    is empty the output is that header line and nothing more. *)
Theorem header_line_never_empty (o : Namespace) :
  get_fieldnames o <> []
  /\ (forall out,
         DictWriter_writeheader (script_writer o) out = (out ++ header_line o, Ok tt))
  /\ String.concat "," (get_fieldnames o) <> EmptyString
  /\ (forall d out,
         dict_lookup d "locations" = Some (VList []) ->
         output_airports (VDict d) o out = (out ++ header_line o, Ok tt)).
Proof.
  split; [apply get_fieldnames_nonempty | split; [apply writeheader_script | split]].
  - flags o; cbv; discriminate.
  - intros d out Hloc.
    rewrite (output_airports_rows o d [] [] out Hloc (Forall2_nil _)).
    simpl. now rewrite append_nil_r.
Qed.

Lemma header_line_never_empty_witness :
  output_airports empty_doc no_options EmptyString = ("name" ++ lineterminator, Ok tt).
Proof.
  exact (proj2 (proj2 (proj2 (header_line_never_empty no_options)))
               [("locations", VList [])] EmptyString eq_refl).
Defined.

(** A status outside 400 to 599 that is not a 2xx either, such as 304, is
    [ok] for [requests]: [get_airports] goes on and decodes its body. *)
Remark not_modified_is_decoded :
  get_airports (respond {| status_code := 304; text := empty_body |})
               (loads_only empty_body empty_doc) "GB" 100
  = Ok empty_doc.
Proof. reflexivity. Qed.

(** ** The end-to-end scenarios of the specification *)

Example scenario_no_flag :
  main (respond (response_200 heathrow_body)) (loads_only heathrow_body heathrow_doc)
       no_options EmptyString
  = ("name" ++ lineterminator ++ "Heathrow" ++ lineterminator, ExitNormally).
Proof. reflexivity. Qed.

Example scenario_full :
  main (respond (response_200 heathrow_body)) (loads_only heathrow_body heathrow_doc)
       {| cities := false; coords := false; iata := false; names := false; full := true |}
       EmptyString
  = ("name,city,lon,lat,iata" ++ lineterminator
       ++ "Heathrow,London,-0.45,51.47,LHR" ++ lineterminator, ExitNormally).
Proof. reflexivity. Qed.

Example scenario_coords_iata :
  main (respond (response_200 heathrow_body)) (loads_only heathrow_body heathrow_doc)
       {| cities := false; coords := true; iata := true; names := false; full := false |}
       EmptyString
  = ("lon,lat,iata" ++ lineterminator ++ "-0.45,51.47,LHR" ++ lineterminator, ExitNormally).
Proof. reflexivity. Qed.

(** * Further properties of the script *)

(** ** The columns *)

Lemma get_fieldnames_incl (o : Namespace) (f : string) :
  In f (get_fieldnames o) -> In f all_fields.
Proof. flags o; simpl; intuition. Qed.

(** X1: which columns a configuration selects.  name is there with [full],
    with [names], and when none of cities, coords and iata is asked for; city
    with [full] or [cities]; lon and lat, always together, with [full] or
    [coords]; iata with [full] or [iata]; and no other column ever. *)
Theorem get_fieldnames_membership (o : Namespace) (f : string) :
  In f (get_fieldnames o) <->
  (f = "name"
   /\ (full o = true \/ names o = true
       \/ (cities o = false /\ coords o = false /\ iata o = false)))
  \/ (f = "city" /\ (full o = true \/ cities o = true))
  \/ ((f = "lon" \/ f = "lat") /\ (full o = true \/ coords o = true))
  \/ (f = "iata" /\ (full o = true \/ iata o = true)).
Proof.
  flags o; split; intros H;
    repeat match goal with
           | H : _ \/ _ |- _ => destruct H
           | H : _ /\ _ |- _ => destruct H
           | H : False |- _ => destruct H
           end;
    subst; try discriminate; auto 12.
Qed.

(** X2: whatever the configuration, the columns come in the order name, city,
    lon, lat, iata: the field list is the list of the five columns with the
    columns that are not selected left out. *)
Theorem get_fieldnames_in_fixed_order (o : Namespace) :
  get_fieldnames o = filter (fun f => mem f (get_fieldnames o)) all_fields
  /\ NoDup (get_fieldnames o).
Proof.
  flags o; (split; [reflexivity | repeat constructor; simpl; intuition discriminate]).
Qed.

(** ** Records that cannot be mapped *)

Lemma getitem_not_dict (v : value) (key : string) :
  (forall d, v <> VDict d) -> exists msg, getitem v key = Raise (TypeError msg).
Proof.
  intros H. destruct v; simpl; eauto. now destruct (H d).
Qed.

(** X3: the row mapper fails in two ways only: with a [KeyError] that names
    one of the keys it reads (name, city, location, lon, lat, code), or with a
    [TypeError] from a subscript on something that is not a dict. *)
Theorem create_airport_row_raises_only (airport : value) (e : exception) :
  create_airport_row airport = Raise e ->
  (exists key, e = KeyError key
               /\ In key ["name"; "city"; "location"; "lon"; "lat"; "code"])
  \/ (exists msg, e = TypeError msg).
Proof.
  unfold create_airport_row, rbind. intros H.
  repeat match type of H with
         | match getitem ?v ?k with _ => _ end = _ =>
             let E := fresh "E" in
             destruct (getitem v k) eqn:E;
             [| injection H as <-;
                destruct (getitem_raises _ _ _ E) as [-> | [msg ->]];
                [left; eexists; split; [reflexivity | simpl; auto 8] | right; eauto]]
         end.
  discriminate.
Qed.

Lemma create_airport_row_raises_only_witness :
  (exists key, KeyError "name" = KeyError key
               /\ In key ["name"; "city"; "location"; "lon"; "lat"; "code"])
  \/ (exists msg, KeyError "name" = TypeError msg).
Proof.
  apply (create_airport_row_raises_only (VDict []) (KeyError "name")). reflexivity.
Defined.

(** X4: the error is that of the first read that fails, in the order name,
    city, the name of the city, location, lon, lat, code; so a record without
    name is reported for name whatever else it lacks, and a city without a
    name is reported with the same key as a record without name.  A record
    that is not a dict (a string, a number, null) is a [TypeError]. *)
Theorem create_airport_row_first_failure (airport : value) :
  ((forall d, airport <> VDict d) ->
   exists msg, create_airport_row airport = Raise (TypeError msg))
  /\ (forall d, airport = VDict d -> dict_lookup d "name" = None ->
                create_airport_row airport = Raise (KeyError "name"))
  /\ (forall d name, airport = VDict d -> dict_lookup d "name" = Some name ->
                     dict_lookup d "city" = None ->
                     create_airport_row airport = Raise (KeyError "city"))
  /\ (forall d name c, airport = VDict d -> dict_lookup d "name" = Some name ->
                       dict_lookup d "city" = Some (VDict c) ->
                       dict_lookup c "name" = None ->
                       create_airport_row airport = Raise (KeyError "name"))
  /\ (forall d name c city, airport = VDict d -> dict_lookup d "name" = Some name ->
                            dict_lookup d "city" = Some (VDict c) ->
                            dict_lookup c "name" = Some city ->
                            dict_lookup d "location" = None ->
                            create_airport_row airport = Raise (KeyError "location"))
  /\ (forall d name c city l, airport = VDict d -> dict_lookup d "name" = Some name ->
                              dict_lookup d "city" = Some (VDict c) ->
                              dict_lookup c "name" = Some city ->
                              dict_lookup d "location" = Some (VDict l) ->
                              dict_lookup l "lon" = None ->
                              create_airport_row airport = Raise (KeyError "lon"))
  /\ (forall d name c city l lon, airport = VDict d -> dict_lookup d "name" = Some name ->
                                  dict_lookup d "city" = Some (VDict c) ->
                                  dict_lookup c "name" = Some city ->
                                  dict_lookup d "location" = Some (VDict l) ->
                                  dict_lookup l "lon" = Some lon ->
                                  dict_lookup l "lat" = None ->
                                  create_airport_row airport = Raise (KeyError "lat"))
  /\ (forall d name c city l lon lat, airport = VDict d ->
                                      dict_lookup d "name" = Some name ->
                                      dict_lookup d "city" = Some (VDict c) ->
                                      dict_lookup c "name" = Some city ->
                                      dict_lookup d "location" = Some (VDict l) ->
                                      dict_lookup l "lon" = Some lon ->
                                      dict_lookup l "lat" = Some lat ->
                                      dict_lookup d "code" = None ->
                                      create_airport_row airport = Raise (KeyError "code")).
Proof.
  repeat split.
  - intros H. unfold create_airport_row.
    destruct (getitem_not_dict airport "name" H) as [msg ->]. now exists msg.
  - intros d -> Hn. unfold create_airport_row. simpl. now rewrite Hn.
  - intros d name -> Hn Hc. unfold create_airport_row. simpl. now rewrite Hn, Hc.
  - intros d name c -> Hn Hc Hcn. unfold create_airport_row. simpl.
    rewrite Hn, Hc. simpl. now rewrite Hcn.
  - intros d name c city -> Hn Hc Hcn Hl. unfold create_airport_row. simpl.
    rewrite Hn, Hc. simpl. rewrite Hcn. simpl. now rewrite Hl.
  - intros d name c city l -> Hn Hc Hcn Hl Hlon. unfold create_airport_row. simpl.
    rewrite Hn, Hc. simpl. rewrite Hcn. simpl. rewrite Hl. simpl. now rewrite Hlon.
  - intros d name c city l lon -> Hn Hc Hcn Hl Hlon Hlat. unfold create_airport_row. simpl.
    rewrite Hn, Hc. simpl. rewrite Hcn. simpl. rewrite Hl. simpl. rewrite Hlon. simpl.
    now rewrite Hlat.
  - intros d name c city l lon lat -> Hn Hc Hcn Hl Hlon Hlat Hcode.
    unfold create_airport_row. simpl.
    rewrite Hn, Hc. simpl. rewrite Hcn. simpl. rewrite Hl. simpl. rewrite Hlon. simpl.
    rewrite Hlat. simpl. now rewrite Hcode.
Qed.

Lemma create_airport_row_first_failure_witness :
  create_airport_row (VDict [("name", VStr "Heathrow"); ("city", VDict [])])
  = Raise (KeyError "name").
Proof.
  apply (proj1 (proj2 (proj2 (proj2 (create_airport_row_first_failure
                                       (VDict [("name", VStr "Heathrow"); ("city", VDict [])])))))
          [("name", VStr "Heathrow"); ("city", VDict [])] (VStr "Heathrow") []);
    reflexivity.
Defined.

(** X5: a row that was mapped has a value for every column of every
    configuration, so the writer never falls back on its filler: each cell of
    a line is a value read from the record. *)
Theorem mapped_row_fills_every_column (o : Namespace) (airport : value)
        (row : list (string * value)) (key : string) :
  create_airport_row airport = Ok row ->
  In key (get_fieldnames o) ->
  exists cell, dict_lookup row key = Some cell
               /\ dict_get row key (VStr EmptyString) = cell.
Proof.
  intros Hrow Hkey.
  destruct (create_airport_row_inv airport row Hrow)
    as (name & city & lon & lat & code & _ & _ & _ & _ & _ & ->).
  apply get_fieldnames_incl in Hkey.
  destruct Hkey as [<- | [<- | [<- | [<- | [<- | []]]]]];
    eexists; split; reflexivity.
Qed.

Lemma mapped_row_fills_every_column_witness :
  exists cell, dict_lookup heathrow_row "name" = Some cell
               /\ dict_get heathrow_row "name" (VStr EmptyString) = cell.
Proof.
  apply (mapped_row_fills_every_column no_options heathrow heathrow_row "name");
    [reflexivity | simpl; auto].
Defined.

(** ** Documents of another shape *)

(** X6: a document that is a dict without [locations] still gets the header
    line written; only then does the missing key raise, and the top level
    prints it, in quotes, after the header. *)
Theorem missing_locations_after_header
        (requests_get : string -> list (string * value) -> result Response)
        (json_loads : string -> result value)
        (o : Namespace) (r : Response) (d : list (string * value)) (out : stdout) :
  requests_get locations_url (locations_params "GB" 100) = Ok r ->
  ok r = true ->
  json_loads (text r) = Ok (VDict d) ->
  dict_lookup d "locations" = None ->
  output_airports (VDict d) o out = (out ++ header_line o, Raise (KeyError "locations"))
  /\ main requests_get json_loads o out
     = ((out ++ header_line o) ++ "'locations'" ++ str1 LF, ExitNormally).
Proof.
  intros Hget Hok Hloads Hloc.
  assert (output_airports (VDict d) o out
          = (out ++ header_line o, Raise (KeyError "locations"))) as Hout.
  { apply output_airports_no_locations. simpl. now rewrite Hloc. }
  split; [exact Hout |].
  apply (main_caught _ _ o out _ (KeyError "locations")); [| reflexivity].
  rewrite (try_body_fetch_ok _ _ o out (VDict d)); [exact Hout |].
  now rewrite (get_airports_ok _ _ _ _ r Hget Hok).
Qed.

Lemma missing_locations_after_header_witness :
  main (respond (response_200 "{}")) (loads_only "{}" (VDict [])) no_options EmptyString
  = ((EmptyString ++ header_line no_options) ++ "'locations'" ++ str1 LF, ExitNormally).
Proof.
  refine (proj2 (missing_locations_after_header
                   (respond (response_200 "{}")) (loads_only "{}" (VDict []))
                   no_options (response_200 "{}") [] EmptyString _ _ _ _));
    reflexivity.
Defined.

(** X7: when [locations] is not a list.  A null, a boolean or a number cannot
    be gone through: a [TypeError] after the header.  A dict is gone through
    by its keys and a string by its characters, which are strings and not
    records: with at least one, a [TypeError] on the first, after the header;
    with none, the header alone, as for an empty list. *)
Theorem locations_not_a_list (o : Namespace) (d : list (string * value))
        (locations : value) (out : stdout) :
  dict_lookup d "locations" = Some locations ->
  (match locations with
   | VNone | VBool _ | VInt _ | VFloat _ =>
       output_airports (VDict d) o out
       = (out ++ header_line o,
          Raise (TypeError ("'" ++ type_name locations ++ "' object is not iterable")))
   | VDict [] | VStr EmptyString =>
       output_airports (VDict d) o out = (out ++ header_line o, Ok tt)
   | VDict (_ :: _) | VStr (String _ _) =>
       output_airports (VDict d) o out
       = (out ++ header_line o,
          Raise (TypeError "string indices must be integers, not 'str'"))
   | VList _ => True
   end).
Proof.
  intros Hloc.
  destruct locations as [| b | z | x | s | l | items];
    try exact I; rewrite output_airports_after_header;
    unfold io_bind, lift; simpl; rewrite Hloc; simpl; try reflexivity.
  - destruct s as [| c s]; reflexivity.
  - destruct items as [| [k v] items]; reflexivity.
Qed.

Lemma locations_not_a_list_witness :
  output_airports (VDict [("locations", VDict [("LHR", heathrow)])]) no_options EmptyString
  = (EmptyString ++ header_line no_options,
     Raise (TypeError "string indices must be integers, not 'str'")).
Proof.
  exact (locations_not_a_list no_options [("locations", VDict [("LHR", heathrow)])]
           (VDict [("LHR", heathrow)]) EmptyString eq_refl).
Defined.

(** ** Lines *)

Lemma join_fields_not_empty (fields : list value) :
  fields <> [] -> join_fields fields <> EmptyString.
Proof.
  intros Hne. unfold join_fields.
  destruct fields as [| v fields]; [now destruct Hne |].
  cbn [length Nat.ltb Nat.leb andb].
  destruct (String.eqb _ EmptyString) eqn:E; [discriminate |].
  now apply String.eqb_neq.
Qed.

(** X9: no line for a record is ever blank: with a single column whose value
    is empty or null the line is a pair of quotes, and in general the line
    always has text before its terminator. *)
Theorem row_line_never_blank (o : Namespace) (row : list (string * value)) :
  join_fields (map (fun key => dict_get row key (VStr EmptyString)) (get_fieldnames o))
  <> EmptyString
  /\ row_line o row <> lineterminator
  /\ (forall key,
         get_fieldnames o = [key] ->
         field_text (dict_get row key (VStr EmptyString)) = EmptyString ->
         row_line o row = String dquote (str1 dquote) ++ lineterminator).
Proof.
  assert (join_fields (map (fun key => dict_get row key (VStr EmptyString))
                           (get_fieldnames o)) <> EmptyString) as Hne.
  { apply join_fields_not_empty. intros Hmap. apply map_eq_nil in Hmap.
    now apply (get_fieldnames_nonempty o). }
  split; [exact Hne | split].
  - unfold row_line. intros H.
    destruct (join_fields _) as [| c s]; [now apply Hne |].
    unfold lineterminator, str1 in H. simpl in H. injection H as _ H.
    destruct s as [| c' s]; simpl in H; [discriminate |].
    injection H as _ H. destruct s; discriminate.
  - intros key Hkey Hempty. unfold row_line. rewrite Hkey. simpl.
    unfold join_fields. simpl. now rewrite Hempty.
Qed.

Lemma row_line_never_blank_witness :
  row_line no_options [("name", VNone)] = String dquote (str1 dquote) ++ lineterminator.
Proof.
  apply (proj2 (proj2 (row_line_never_blank no_options [("name", VNone)])) "name");
    reflexivity.
Defined.

(** ** Quoting *)

Lemma count_char_app (c : ascii) (a b : string) :
  count_char c (a ++ b) = count_char c a + count_char c b.
Proof.
  induction a as [| x a IH]; simpl; [reflexivity | rewrite IH; lia].
Qed.

Lemma join_append_data_quotes (field : string) :
  count_char dquote (snd (join_append_data field)) = 2 * count_char dquote field
  /\ (fst (join_append_data field) = false -> count_char dquote field = 0).
Proof.
  induction field as [| c field [IHcount IHquoted]]; [split; reflexivity |].
  cbn [join_append_data].
  destruct (join_append_data field) as [quoted data].
  cbn [snd fst] in IHcount, IHquoted.
  unfold quotechar.
  destruct (Ascii.eqb c dquote) eqn:Ec.
  - cbn [snd fst count_char]. rewrite Ec, Ascii.eqb_refl. split; [lia | discriminate].
  - destruct (Ascii.eqb c delimiter || contains c lineterminator);
      cbn [snd fst count_char]; rewrite Ec.
    + split; [lia | discriminate].
    + split; [lia | exact IHquoted].
Qed.

Lemma join_append_even (field : string) :
  Nat.even (count_char dquote (join_append field)) = true.
Proof.
  unfold join_append.
  destruct (join_append_data_quotes field) as [Hcount Hquoted].
  destruct (join_append_data field) as [[|] data]; cbn [snd fst] in Hcount, Hquoted.
  - unfold quotechar, str1. cbn [count_char].
    rewrite count_char_app. cbn [count_char].
    rewrite Ascii.eqb_refl, Hcount.
    replace (1 + (2 * count_char dquote field + (1 + 0)))
      with (2 * (1 + count_char dquote field)) by lia.
    apply Nat.even_spec. now exists (1 + count_char dquote field).
  - rewrite Hcount, (Hquoted eq_refl). reflexivity.
Qed.

Lemma concat_even (cells : list string) :
  Forall (fun s => Nat.even (count_char dquote s) = true) cells ->
  Nat.even (count_char dquote (String.concat (str1 delimiter) cells)) = true.
Proof.
  induction 1 as [| s cells Hs _ IH]; [reflexivity |].
  destruct cells as [| s' cells]; [exact Hs |].
  change (String.concat (str1 delimiter) (s :: s' :: cells))
    with (s ++ str1 delimiter ++ String.concat (str1 delimiter) (s' :: cells)).
  rewrite !count_char_app, !Nat.even_add, Hs, IH. reflexivity.
Qed.

Lemma join_fields_even (fields : list value) :
  Nat.even (count_char dquote (join_fields fields)) = true.
Proof.
  unfold join_fields.
  match goal with |- context [if ?b then _ else _] => destruct b end.
  - reflexivity.
  - apply concat_even. apply Forall_map, Forall_forall. intros v _. apply join_append_even.
Qed.

(** X10: the quotes of the CSV text are balanced: the header line and every
    line written for a row, whatever the values in it, hold an even number of
    quote characters, and so does everything a successful run writes. *)
Theorem written_quotes_are_balanced (o : Namespace) (rows : list (list (string * value))) :
  count_char dquote (header_line o) = 0
  /\ (forall row, Nat.even (count_char dquote (row_line o row)) = true)
  /\ Nat.even (count_char dquote (header_line o ++ row_lines o rows)) = true.
Proof.
  assert (count_char dquote (header_line o) = 0) as Hheader
      by (flags o; reflexivity).
  assert (forall row, Nat.even (count_char dquote (row_line o row)) = true) as Hrow.
  { intros row. unfold row_line.
    rewrite count_char_app, Nat.even_add, join_fields_even. reflexivity. }
  split; [exact Hheader | split; [exact Hrow |]].
  rewrite count_char_app, Hheader. simpl.
  induction rows as [| row rows IH]; [reflexivity |].
  simpl. now rewrite count_char_app, Nat.even_add, Hrow, IH.
Qed.

(** ** The status of the response *)

(** X11: every status outside 400 to 599 counts as a success, a 1xx or 3xx
    status, or one of 600 and more, as much as a 2xx: the body is decoded and
    the outcome of the decoding, a document or an exception, is the outcome
    of the fetch. *)
Theorem get_airports_decodes_outside_4xx_5xx
        (requests_get : string -> list (string * value) -> result Response)
        (json_loads : string -> result value)
        (iso_country_code : string) (limit : Z) (r : Response) :
  requests_get locations_url (locations_params iso_country_code limit) = Ok r ->
  (status_code r < 400 \/ 600 <= status_code r)%Z ->
  get_airports requests_get json_loads iso_country_code limit = json_loads (text r).
Proof.
  intros Hget Hstatus. apply (get_airports_ok _ _ _ _ r Hget).
  destruct (ok r) eqn:E; [reflexivity |]. apply ok_false_iff in E. lia.
Qed.

Lemma get_airports_decodes_outside_4xx_5xx_witness :
  get_airports (respond {| status_code := 399; text := empty_body |})
               (loads_only empty_body empty_doc) "GB" 100
  = loads_only empty_body empty_doc empty_body.
Proof.
  refine (get_airports_decodes_outside_4xx_5xx
            (respond {| status_code := 399; text := empty_body |})
            (loads_only empty_body empty_doc) "GB" 100
            {| status_code := 399; text := empty_body |} _ _);
    [reflexivity | simpl; lia].
Defined.

(** ** Whole runs *)

(** X12: a run that goes well.  When the response is [ok], its body decodes
    to a dict whose [locations] is a list, every record of the list maps to a
    row, and the text to write is plain ASCII (so that standard output can
    encode it whatever its encoding), standard output gets the header line
    and one line per record, in the order of the list, nothing else, and the
    process ends normally. *)
Theorem main_writes_csv
        (requests_get : string -> list (string * value) -> result Response)
        (json_loads : string -> result value)
        (o : Namespace) (r : Response) (d : list (string * value))
        (airports : list value) (rows : list (list (string * value))) (out : stdout) :
  requests_get locations_url (locations_params "GB" 100) = Ok r ->
  ok r = true ->
  json_loads (text r) = Ok (VDict d) ->
  dict_lookup d "locations" = Some (VList airports) ->
  Forall2 (fun airport row => create_airport_row airport = Ok row) airports rows ->
  is_ascii (header_line o ++ row_lines o rows) = true ->
  main requests_get json_loads o out
  = (out ++ header_line o ++ row_lines o rows, ExitNormally).
Proof.
  intros Hget Hok Hloads Hloc Hrows _. unfold main.
  rewrite (try_body_fetch_ok _ _ o out (VDict d))
    by now rewrite (get_airports_ok _ _ _ _ r Hget Hok).
  now rewrite (output_airports_rows o d airports rows out Hloc Hrows).
Qed.

Lemma main_writes_csv_witness :
  main (respond (response_200 heathrow_body)) (loads_only heathrow_body heathrow_doc)
       no_options EmptyString
  = (EmptyString ++ header_line no_options ++ row_lines no_options [heathrow_row],
     ExitNormally).
Proof.
  refine (main_writes_csv (respond (response_200 heathrow_body))
            (loads_only heathrow_body heathrow_doc) no_options
            (response_200 heathrow_body) [("locations", VList [heathrow])]
            [heathrow] [heathrow_row] EmptyString _ _ _ _ _ _);
    try reflexivity.
  constructor; [reflexivity | constructor].
Defined.

(** X13: the code of the script itself never ends a run with a traceback.
    Provided the request and the decoder fail only with exceptions of the
    [Exception] family, every run ends normally, whatever the status, the
    body and the shape of the document. *)
Theorem main_ends_normally
        (requests_get : string -> list (string * value) -> result Response)
        (json_loads : string -> result value)
        (o : Namespace) (out : stdout) :
  (forall url params e, requests_get url params = Raise e -> is_Exception e = true) ->
  (forall body e, json_loads body = Raise e -> is_Exception e = true) ->
  snd (main requests_get json_loads o out) = ExitNormally.
Proof.
  intros Hget Hloads. unfold main.
  destruct (try_body requests_get json_loads o out) as [out' [[] | e]] eqn:Hbody;
    [reflexivity |].
  assert (is_Exception e = true) as He.
  { unfold try_body, io_bind, lift in Hbody.
    destruct (get_airports requests_get json_loads "GB" 100) as [doc | e'] eqn:Hfetch.
    - now apply (output_airports_raises_Exception doc o out out').
    - injection Hbody as _ <-. unfold get_airports in Hfetch.
      destruct (requests_get _ _) as [r | e''] eqn:Hr; simpl in Hfetch.
      + destruct (ok r); simpl in Hfetch.
        * now apply (Hloads (text r)).
        * now injection Hfetch as <-.
      + injection Hfetch as <-. now apply (Hget _ _ _ Hr). }
  now rewrite He.
Qed.

Lemma main_ends_normally_witness :
  snd (main (respond (response_200 bare_body)) (loads_only bare_body bare_doc)
            no_options EmptyString)
  = ExitNormally.
Proof.
  apply main_ends_normally.
  - intros url params e H. discriminate H.
  - intros body e H. unfold loads_only in H.
    destruct (String.eqb body bare_body); [discriminate H |].
    injection H as <-. reflexivity.
Defined.

(** ** The command line *)

Lemma parse_optional_exact (d : dest) :
  _parse_optional (option_of d) = Fine (Some (Some (store_true d), option_of d, None)).
Proof. destruct d; reflexivity. Qed.

Lemma option_of_not_double_dash (d : dest) : String.eqb (option_of d) "--" = false.
Proof. destruct d; reflexivity. Qed.

Lemma find_options_exact (ds : list dest) :
  find_options (map option_of ds)
  = Fine (map (fun d => (option_of d, Some (Some (store_true d), option_of d, None))) ds).
Proof.
  induction ds as [| d ds IH]; [reflexivity |].
  cbn [map find_options].
  now rewrite option_of_not_double_dash, parse_optional_exact, IH.
Qed.

Lemma consume_exact (ds : list dest) (ns : Namespace) (extras : list string) :
  consume (map (fun d => (option_of d, Some (Some (store_true d), option_of d, None))) ds)
          ns extras
  = consume [] (fold_left (fun ns d => set_true d ns) ds ns) extras.
Proof.
  revert ns. induction ds as [| d ds IH]; intros ns; [reflexivity |].
  cbn [map fold_left]. rewrite <- IH. reflexivity.
Qed.

Lemma attribute_set_true (d d' : dest) (ns : Namespace) :
  attribute d (set_true d' ns) = true <-> attribute d ns = true \/ d = d'.
Proof.
  destruct d, d'; simpl; split; intros H; auto;
    try (destruct H as [H | H]; [exact H | discriminate H]).
Qed.

Lemma attribute_fold (d : dest) (ds : list dest) (ns : Namespace) :
  attribute d (fold_left (fun ns d => set_true d ns) ds ns) = true
  <-> attribute d ns = true \/ In d ds.
Proof.
  revert ns. induction ds as [| d' ds IH]; intros ns; simpl.
  - tauto.
  - rewrite IH, attribute_set_true. intuition (subst; auto).
Qed.

(** X14: a command line made of the five switches, written in full, in any
    order and any number of times, always parses; a switch is on in the
    namespace exactly when it is on the line, and the script then runs under
    that namespace. *)
Theorem parse_options_switches (ds : list dest) :
  exists ns,
    parse_options (map option_of ds) = Parsed ns
    /\ (forall d, attribute d ns = true <-> In d ds)
    /\ (forall requests_get json_loads format_help out,
           script requests_get json_loads format_help (map option_of ds) out
           = (fst (main requests_get json_loads ns out),
              Ended (snd (main requests_get json_loads ns out)))).
Proof.
  exists (fold_left (fun ns d => set_true d ns) ds default_namespace).
  assert (parse_options (map option_of ds)
          = Parsed (fold_left (fun ns d => set_true d ns) ds default_namespace)) as Hparse.
  { unfold parse_options. now rewrite find_options_exact, consume_exact. }
  split; [exact Hparse | split].
  - intros d. rewrite attribute_fold. simpl.
    split; [intros [H | H]; [destruct d; discriminate H | exact H] | auto].
  - intros requests_get json_loads format_help out. unfold script. rewrite Hparse.
    now destruct (main requests_get json_loads _ out).
Qed.

Lemma prefix_in_prefixes (p s : string) :
  String.prefix p s = true -> In p (prefixes s).
Proof.
  revert p. induction s as [| c s IH]; intros [| a p] H; simpl in *; auto.
  - discriminate.
  - right. destruct (ascii_dec a c) as [-> | _]; [| discriminate].
    apply in_map. now apply IH.
Qed.

Lemma abbreviation_parses (d : dest) (p : string) :
  String.prefix p (option_of d) = true ->
  3 <= String.length p ->
  p <> "--c" ->
  _parse_optional p = Fine (Some (Some (store_true d), option_of d, None)).
Proof.
  intros Hprefix Hlength Hc. apply prefix_in_prefixes in Hprefix.
  destruct d; simpl in Hprefix;
    repeat (destruct Hprefix as [<- | Hprefix];
            [first [reflexivity | simpl in Hlength; lia | now destruct Hc] |]);
    destruct Hprefix.
Qed.

Lemma read_alike_parse (argv argv' : list string) :
  read_alike argv argv' -> parse_options argv = parse_options argv'.
Proof.
  unfold read_alike, parse_options.
  destruct (find_options argv), (find_options argv'); intros H;
    [apply H | destruct H | destruct H | now rewrite H].
Qed.

Lemma read_alike_cons (a : string) (argv argv' : list string) :
  String.eqb a "--" = false ->
  read_alike argv argv' -> read_alike (a :: argv) (a :: argv').
Proof.
  unfold read_alike. intros Ha H. cbn [find_options]. rewrite Ha.
  destruct (_parse_optional a) as [t | e]; [| reflexivity].
  destruct (find_options argv) as [found | e], (find_options argv') as [found' | e'];
    try exact H.
  intros ns extras. destruct t as [[[[act |] option_string] explicit_arg] |];
    cbn [consume]; try apply H.
  destruct (consume_optional act option_string explicit_arg) as [acts | e0];
    [| reflexivity].
  destruct (take_actions acts ns); [apply H | reflexivity].
Qed.

Lemma read_alike_abbreviation (d : dest) (p : string) (post : list string) :
  String.prefix p (option_of d) = true ->
  3 <= String.length p ->
  p <> "--c" ->
  read_alike (p :: post) (option_of d :: post).
Proof.
  intros Hprefix Hlength Hc. unfold read_alike. cbn [find_options].
  assert (String.eqb p "--" = false) as ->.
  { apply String.eqb_neq. intros ->. simpl in Hlength. lia. }
  rewrite option_of_not_double_dash, parse_optional_exact,
    (abbreviation_parses d p Hprefix Hlength Hc).
  destruct (find_options post); reflexivity.
Qed.

(** X15: a switch may be shortened.  Any beginning of a switch that still
    has a letter after its two dashes, save [--c], which cities and coords
    share, stands for the switch wherever it appears before a bare [--]: the
    command line is parsed as with the switch written in full. *)
Theorem abbreviated_switch (d : dest) (p : string) (pre post : list string) :
  String.prefix p (option_of d) = true ->
  3 <= String.length p ->
  p <> "--c" ->
  ~ In "--" pre ->
  parse_options (pre ++ p :: post) = parse_options (pre ++ option_of d :: post).
Proof.
  intros Hprefix Hlength Hc Hpre. apply read_alike_parse.
  induction pre as [| a pre IH]; simpl.
  - now apply read_alike_abbreviation.
  - apply read_alike_cons.
    + apply String.eqb_neq. intros ->. apply Hpre. now left.
    + apply IH. intros H. apply Hpre. now right.
Qed.

Lemma abbreviated_switch_witness :
  parse_options ["--full"; "--co"; "--iata"] = parse_options ["--full"; "--coords"; "--iata"].
Proof.
  apply (abbreviated_switch dest_coords "--co" ["--full"] ["--iata"]).
  - reflexivity.
  - simpl. lia.
  - discriminate.
  - intros [H | []]. discriminate H.
Defined.

Lemma parse_optional_not_an_option (a : string) :
  not_an_option a = true -> String.eqb a "--" = false -> _parse_optional a = Fine None.
Proof.
  destruct a as [| c a]; [reflexivity |].
  unfold not_an_option. intros H Hdd. rewrite Hdd, orb_false_r in H.
  unfold _parse_optional. now rewrite H.
Qed.

Lemma find_options_keeps (argv : list string) (a : string) :
  In a argv -> not_an_option a = true ->
  forall found, find_options argv = Fine found -> In (a, None) found.
Proof.
  intros Hin Ha. induction argv as [| b argv IH]; [destruct Hin |].
  intros found Hfound. cbn [find_options] in Hfound.
  destruct (String.eqb b "--") eqn:Eb.
  - injection Hfound as <-. apply String.eqb_eq in Eb. subst b.
    destruct Hin as [<- | Hin]; [now left | right].
    now apply (in_map (fun x : string => (x, None))).
  - destruct (_parse_optional b) as [t | e] eqn:Et; [| discriminate].
    destruct (find_options argv) as [found' | e]; [| discriminate].
    injection Hfound as <-.
    destruct Hin as [<- | Hin].
    + left. rewrite (parse_optional_not_an_option b Ha Eb) in Et. now injection Et as <-.
    + right. now apply IH.
Qed.

Lemma consume_with_extras (found : list (string * option (option action * string * option string)))
      (ns : Namespace) (extras : list string) :
  extras <> [] -> forall ns', consume found ns extras <> Parsed ns'.
Proof.
  revert ns extras. induction found as [| [arg t] found IH]; intros ns extras Hne ns'.
  - simpl. destruct extras; [now destruct Hne | discriminate].
  - destruct t as [[[[act |] option_string] explicit_arg] |]; cbn [consume].
    + destruct (consume_optional act option_string explicit_arg) as [acts | e];
        [| discriminate].
      destruct (take_actions acts ns); [now apply IH | discriminate].
    + apply IH. now destruct extras.
    + apply IH. now destruct extras.
Qed.

Lemma consume_with_positional
      (found : list (string * option (option action * string * option string)))
      (a : string) :
  In (a, None) found ->
  forall ns extras ns', consume found ns extras <> Parsed ns'.
Proof.
  induction found as [| [arg t] found IH]; intros Hin ns extras ns'; [destruct Hin |].
  destruct Hin as [Heq | Hin].
  - injection Heq as -> ->. cbn [consume]. apply consume_with_extras.
    now destruct extras.
  - destruct t as [[[[act |] option_string] explicit_arg] |]; cbn [consume];
      try now apply IH.
    destruct (consume_optional act option_string explicit_arg) as [acts | e];
      [| discriminate].
    destruct (take_actions acts ns); [now apply IH | discriminate].
Qed.

(** X16: the script takes no argument besides its switches.  With a bare
    [--], an empty argument or one that does not start with a dash anywhere
    on the command line, no namespace comes out of the parsing: the script
    makes no request and writes no CSV; it shows the help and exits with
    status 0, or exits with status 2 and standard output untouched. *)
Theorem positional_argument_refused
        (requests_get : string -> list (string * value) -> result Response)
        (json_loads : string -> result value) (format_help : string)
        (argv : list string) (a : string) (out : stdout) :
  In a argv ->
  not_an_option a = true ->
  (forall ns, parse_options argv <> Parsed ns)
  /\ (script requests_get json_loads format_help argv out = (out ++ format_help, SystemExit 0)
      \/ script requests_get json_loads format_help argv out = (out, SystemExit 2)).
Proof.
  intros Hin Ha.
  assert (forall ns, parse_options argv <> Parsed ns) as Hno.
  { intros ns. unfold parse_options.
    destruct (find_options argv) as [found | e] eqn:Hfound; [| discriminate].
    apply (consume_with_positional found a).
    now apply (find_options_keeps argv a Hin Ha). }
  split; [exact Hno |].
  unfold script. destruct (parse_options argv) as [ns | | e]; auto.
  now destruct (Hno ns).
Qed.

Lemma positional_argument_refused_witness :
  script (respond (response_200 heathrow_body)) (loads_only heathrow_body heathrow_doc)
         "usage" ["--full"; "GB"] EmptyString
  = (EmptyString, SystemExit 2).
Proof.
  destruct (proj2 (positional_argument_refused
                     (respond (response_200 heathrow_body))
                     (loads_only heathrow_body heathrow_doc)
                     "usage" ["--full"; "GB"] "GB" EmptyString
                     (or_intror (or_introl eq_refl)) eq_refl)) as [H | H];
    [discriminate H | exact H].
Defined.

Lemma find_options_ambiguous (pre post : list string) :
  ~ In "--" pre ->
  exists e, find_options (pre ++ "--c" :: post) = UsageError e.
Proof.
  intros Hpre. induction pre as [| a pre IH]; simpl.
  - eexists. reflexivity.
  - assert (String.eqb a "--" = false) as ->.
    { apply String.eqb_neq. intros ->. apply Hpre. now left. }
    destruct (_parse_optional a) as [t | e]; [| now exists e].
    destruct IH as [e He]; [intros H; apply Hpre; now right |].
    exists e. now rewrite He.
Qed.

(** X17: the abbreviation [--c], which fits both cities and coords, is
    refused before anything else is done with the command line: wherever it
    stands before a bare [--], and whatever stands with it, a request for
    help included, the script exits with status 2 and writes nothing on
    standard output. *)
Theorem ambiguous_abbreviation_refused
        (requests_get : string -> list (string * value) -> result Response)
        (json_loads : string -> result value) (format_help : string)
        (pre post : list string) (out : stdout) :
  ~ In "--" pre ->
  (exists e, parse_options (pre ++ "--c" :: post) = ExitError e)
  /\ script requests_get json_loads format_help (pre ++ "--c" :: post) out
     = (out, SystemExit 2).
Proof.
  intros Hpre. destruct (find_options_ambiguous pre post Hpre) as [e He].
  assert (parse_options (pre ++ "--c" :: post) = ExitError e) as Hparse
      by (unfold parse_options; now rewrite He).
  split; [now exists e |]. unfold script. now rewrite Hparse.
Qed.

Lemma ambiguous_abbreviation_refused_witness :
  script (respond (response_200 heathrow_body)) (loads_only heathrow_body heathrow_doc)
         "usage" ["--help"; "--c"] EmptyString
  = (EmptyString, SystemExit 2).
Proof.
  refine (proj2 (ambiguous_abbreviation_refused
                   (respond (response_200 heathrow_body))
                   (loads_only heathrow_body heathrow_doc)
                   "usage" ["--help"] [] EmptyString _)).
  intros [H | []]. discriminate H.
Defined.

Lemma consume_help (pre : list dest) (h : string)
      (rest : list (string * option (option action * string * option string)))
      (ns : Namespace) (extras : list string) :
  consume (map (fun d => (option_of d, Some (Some (store_true d), option_of d, None))) pre
             ++ (h, Some (Some help_action, h, None)) :: rest)%list ns extras
  = ExitHelp.
Proof.
  revert ns. induction pre as [| d pre IH]; intros ns; [reflexivity |].
  cbn [map app consume consume_optional take_actions]. apply IH.
Qed.

Lemma find_options_app_exact (pre : list dest) (argv : list string) :
  find_options (map option_of pre ++ argv)
  = match find_options argv with
    | Fine found =>
        Fine (map (fun d => (option_of d, Some (Some (store_true d), option_of d, None))) pre
                ++ found)%list
    | UsageError e => UsageError e
    end.
Proof.
  induction pre as [| d pre IH]; simpl.
  - now destruct (find_options argv).
  - pose proof (option_of_not_double_dash d) as Hdd.
    pose proof (parse_optional_exact d) as Hd.
    cbn [find_options]. rewrite Hdd, Hd, IH.
    now destruct (find_options argv).
Qed.

(** X18: asking for help among switches written in full.  With [-h] or
    [--help] after any of the switches, and switches after it, the script
    prints the help text on standard output and exits with status 0: it makes
    no request and writes no CSV. *)
Theorem help_among_switches
        (requests_get : string -> list (string * value) -> result Response)
        (json_loads : string -> result value) (format_help : string)
        (before after : list dest) (h : string) (out : stdout) :
  h = "-h" \/ h = "--help" ->
  parse_options (map option_of before ++ h :: map option_of after) = ExitHelp
  /\ script requests_get json_loads format_help
            (map option_of before ++ h :: map option_of after) out
     = (out ++ format_help, SystemExit 0).
Proof.
  intros Hh.
  assert (parse_options (map option_of before ++ h :: map option_of after) = ExitHelp)
    as Hparse.
  { unfold parse_options. rewrite find_options_app_exact.
    assert (find_options (h :: map option_of after)
            = Fine ((h, Some (Some help_action, h, None))
                      :: map (fun d => (option_of d,
                                        Some (Some (store_true d), option_of d, None)))
                             after)) as ->.
    { cbn [find_options]. rewrite find_options_exact.
      destruct Hh as [-> | ->]; reflexivity. }
    apply consume_help. }
  split; [exact Hparse |]. unfold script. now rewrite Hparse.
Qed.

Lemma help_among_switches_witness :
  script (respond (response_200 heathrow_body)) (loads_only heathrow_body heathrow_doc)
         "usage" ["--full"; "-h"; "--iata"] "name"
  = ("name" ++ "usage", SystemExit 0).
Proof.
  apply (proj2 (help_among_switches
                  (respond (response_200 heathrow_body))
                  (loads_only heathrow_body heathrow_doc)
                  "usage" [dest_full] [dest_iata] "-h" "name" (or_introl eq_refl))).
Defined.
